(** * hatch_generator: line generation and Cohen-Sutherland clipping

    A shallow embedding of [src/main.cpp], in two forms.

    The first form writes the program over the real numbers of the Standard
    Library.  It carries the properties that rest on the comparisons and on
    the control structure of the program alone: the bits of the outcodes,
    the exits of the clipping loop, the check of the step, the loop over the
    command line ([parseArgs]), the log ([logEntries]) and the elements
    written to hatch.svg ([svgElements], [svgText]).  It also gives the
    lines of the program on a few concrete inputs.  The [int] outcodes are
    integers of [Z] with the bit operations [Z.lor] and [Z.land]; two events
    are made explicit in the result type [run]: a loop that does not stop
    within its iteration budget, and a division whose divisor is zero.
    There [std::stod] and the stream's formatting of a [double] are
    parameters.

    The second form, [Module B64], is the program on its [double] values:
    the binary64 numbers of the kernel, whose operations round to nearest,
    overflow to the infinities and produce NaN as IEEE 754 has it.
    [std::fmod] is computed exactly on the mantissas ([fmod64]), [std::sqrt]
    is the correctly rounded square root, [std::numbers::pi] is the double
    nearest to pi, and [std::cos] and [std::sin], which belong to the C
    library, are parameters of the generation.  The properties of the
    arithmetic (containment, the range of the normalised angle, the values
    of the loop variables) are stated and proved on this form, from the
    specification of the operations in [SpecFloat]. *)

From Stdlib Require Import Floats.
From Stdlib Require Uint63.
From Stdlib Require Import Reals Lra Lia ZArith List Bool String.
Import ListNotations.
Open Scope R_scope.

(** ** Results of running a piece of the program *)

Inductive run (A : Type) : Type :=
| Done (a : A)
| Unfinished
| ZeroDivide.

Arguments Done {A} a.
Arguments Unfinished {A}.
Arguments ZeroDivide {A}.

Definition bind {A B : Type} (m : run A) (k : A -> run B) : run B :=
  match m with
  | Done a => k a
  | Unfinished => Unfinished
  | ZeroDivide => ZeroDivide
  end.

Notation "'let*' x ':=' m 'in' k" := (bind m (fun x => k))
  (at level 10, x name, m at level 100, k at level 200).

(** The quotient [a / b] of two doubles, where it exists as a real number. *)
Definition divide (a b : R) : run R :=
  if Req_dec_T b 0 then ZeroDivide else Done (a / b).

(** ** Data model *)

Record Point_2 : Type := mkPoint_2 { Point_2_x : R; Point_2_y : R }.

Record Line_2 : Type := mkLine_2 { Line_2_start : Point_2; Line_2_end : Point_2 }.

Definition Lines : Type := list Line_2.

(** [enum OutCode { INSIDE = 0, LEFT = 1, RIGHT = 2, BOTTOM = 4, TOP = 8 }] *)
Definition INSIDE : Z := 0.

Definition LEFT : Z := 1.

Definition RIGHT : Z := 2.

Definition BOTTOM : Z := 4.

Definition TOP : Z := 8.

(** A C [int] used as a condition: true when it is not zero. *)
Definition truthy (c : Z) : bool := negb (Z.eqb c 0).

(** ** computeOutCode *)

Definition computeOutCode (x y : R) (bottomLeft topRight : Point_2) : Z :=
  let code := INSIDE in
  let code :=
    if Rlt_dec x (Point_2_x bottomLeft) then Z.lor code LEFT
    else if Rgt_dec x (Point_2_x topRight) then Z.lor code RIGHT
    else code in
  let code :=
    if Rlt_dec y (Point_2_y bottomLeft) then Z.lor code BOTTOM
    else if Rgt_dec y (Point_2_y topRight) then Z.lor code TOP
    else code in
  code.

(** ** clipLine *)

(** The local variables of [clipLine] that the loop reads and writes. *)
Record ClipState : Type := mkClipState {
  x0 : R; y0 : R;
  x1 : R; y1 : R;
  outcode0 : Z;
  outcode1 : Z
}.

(** What one pass through the body of [while (true)] does: leave the loop
    with [accept] set or unset, or go round again with new locals. *)
Inductive ClipStep : Type :=
| Break (accept : bool)
| Continue (s : ClipState).

(** The intersection point computed in the [else] branch of the loop body,
    testing the bits of [outcodeOut] in the order TOP, BOTTOM, RIGHT, LEFT. *)
Definition clipPoint (s : ClipState) (outcodeOut : Z)
    (bottomLeft topRight : Point_2) : run (R * R) :=
  if truthy (Z.land outcodeOut TOP) then
    let* q := divide ((x1 s - x0 s) * (Point_2_y topRight - y0 s)) (y1 s - y0 s) in
    Done (x0 s + q, Point_2_y topRight)
  else if truthy (Z.land outcodeOut BOTTOM) then
    let* q := divide ((x1 s - x0 s) * (Point_2_y bottomLeft - y0 s)) (y1 s - y0 s) in
    Done (x0 s + q, Point_2_y bottomLeft)
  else if truthy (Z.land outcodeOut RIGHT) then
    let* q := divide ((y1 s - y0 s) * (Point_2_x topRight - x0 s)) (x1 s - x0 s) in
    Done (Point_2_x topRight, y0 s + q)
  else
    let* q := divide ((y1 s - y0 s) * (Point_2_x bottomLeft - x0 s)) (x1 s - x0 s) in
    Done (Point_2_x bottomLeft, y0 s + q).

Definition clipBody (s : ClipState) (bottomLeft topRight : Point_2) : run ClipStep :=
  if negb (truthy (Z.lor (outcode0 s) (outcode1 s))) then
    Done (Break true)
  else if truthy (Z.land (outcode0 s) (outcode1 s)) then
    Done (Break false)
  else
    let outcodeOut := if truthy (outcode0 s) then outcode0 s else outcode1 s in
    let* xy := clipPoint s outcodeOut bottomLeft topRight in
    let (x, y) := xy in
    if Z.eqb outcodeOut (outcode0 s) then
      Done (Continue (mkClipState x y (x1 s) (y1 s)
                        (computeOutCode x y bottomLeft topRight) (outcode1 s)))
    else
      Done (Continue (mkClipState (x0 s) (y0 s) x y
                        (outcode0 s) (computeOutCode x y bottomLeft topRight))).

(** The loop [while (true) { ... }], run for at most [fuel] passes.  It
    returns the value of [accept] and the locals at the [break]. *)
Fixpoint clipLoop (fuel : nat) (s : ClipState) (bottomLeft topRight : Point_2)
    : run (bool * ClipState) :=
  match fuel with
  | O => Unfinished
  | S fuel' =>
      let* step := clipBody s bottomLeft topRight in
      match step with
      | Break accept => Done (accept, s)
      | Continue s' => clipLoop fuel' s' bottomLeft topRight
      end
  end.

(** The locals on entry to the loop. *)
Definition clipInit (line : Line_2) (bottomLeft topRight : Point_2) : ClipState :=
  let x0 := Point_2_x (Line_2_start line) in
  let y0 := Point_2_y (Line_2_start line) in
  let x1 := Point_2_x (Line_2_end line) in
  let y1 := Point_2_y (Line_2_end line) in
  mkClipState x0 y0 x1 y1
    (computeOutCode x0 y0 bottomLeft topRight)
    (computeOutCode x1 y1 bottomLeft topRight).

(** [clipLine] with an explicit budget of loop passes.  The result is the
    returned [bool] together with the value of the reference parameter
    [line] on return: it is written only when [accept] is set. *)
Definition clipLineFuel (fuel : nat) (line : Line_2) (bottomLeft topRight : Point_2)
    : run (bool * Line_2) :=
  let* r := clipLoop fuel (clipInit line bottomLeft topRight) bottomLeft topRight in
  let (accept, s) := r in
  if accept then
    Done (true, mkLine_2 (mkPoint_2 (x0 s) (y0 s)) (mkPoint_2 (x1 s) (y1 s)))
  else
    Done (false, line).

(** The budget of the loop over the reals.  In exact arithmetic a trimming
    pass puts the point on the edge it is moved to, so four trimming passes
    and a final test are all the loop needs there; the properties stated on
    this form concern exits that the comparisons decide.  On doubles the
    point can fall beside the edge, and the loop of [B64.clipLine] takes its
    budget as an argument. *)
Definition clipPasses : nat := 5.

Definition clipLine (line : Line_2) (bottomLeft topRight : Point_2) : run (bool * Line_2) :=
  clipLineFuel clipPasses line bottomLeft topRight.

(** ** The body of main: normalisation of the angle and line generation *)

Definition degreesToRadians (degrees : R) : R := degrees * PI / 180.

(** [std::fmod (x, y)] as the C standard defines it: [x - n * y], where [n]
    is the quotient [x / y] with its fractional part cut off (rounded
    towards zero), so that the result has the sign of [x] and a magnitude
    below that of [y]. *)
Definition truncate (r : R) : Z :=
  if Rle_dec 0 r then Zfloor r else Zceil r.

Definition fmod (x y : R) : R := x - IZR (truncate (x / y)) * y.

(** [angleDegrees = std::fmod(angleDegrees, 360.0);
     if (angleDegrees < 0) angleDegrees += 360.0;] *)
Definition normalizeAngle (angleDegrees : R) : R :=
  let angleDegrees := fmod angleDegrees 360 in
  if Rlt_dec angleDegrees 0 then angleDegrees + 360 else angleDegrees.

(** Comparisons of doubles used as conditions. *)
Definition eqR (a b : R) : bool := if Req_dec_T a b then true else false.

Definition leR (a b : R) : bool := if Rle_dec a b then true else false.

Definition geR (a b : R) : bool := if Rge_dec a b then true else false.

(** A loop [for (double v = init; cond (v); v = next (v)) body], run for at
    most [fuel] passes over the vector [hatchLines]. *)
Fixpoint forLoop (fuel : nat) (cond : R -> bool) (next : R -> R)
    (body : R -> Lines -> run Lines) (v : R) (hatchLines : Lines) : run Lines :=
  if cond v then
    match fuel with
    | O => Unfinished
    | S fuel' =>
        let* hatchLines' := body v hatchLines in
        forLoop fuel' cond next body (next v) hatchLines'
    end
  else Done hatchLines.

(** The number of values [lo, lo + step, lo + 2 * step, ...] that do not
    exceed [hi], for a positive [step]: the number of passes of each of the
    four generation loops, used as their budget: with it each loop runs
    over exactly these values ([forLoop_up] and [forLoop_down] below). *)
Definition tripCount (lo hi step : R) : nat := Z.to_nat (up ((hi - lo) / step)).

(** [hatchLines.push_back (line)] *)
Definition push_back (hatchLines : Lines) (line : Line_2) : Lines := hatchLines ++ [line].

(** What the program leaves behind: its exit code, the text written to the
    standard error stream, and the vector [hatchLines] that the logging and
    SVG code would go on to print. *)
Record Exit : Type := mkExit {
  exitCode : Z;
  errorText : string;
  hatchLines : Lines
}.

Definition stepError : string :=
  "Error: step must be greater than zero" ++ String (Ascii.ascii_of_nat 10) EmptyString.

(** The candidate line of the general branch for one [offset]. *)
Definition candidate (center : Point_2) (angleRadians diagonal offset : R) : Line_2 :=
  let dir := mkPoint_2 (cos angleRadians) (sin angleRadians) in
  let perp := mkPoint_2 (- Point_2_y dir) (Point_2_x dir) in
  mkLine_2
    (mkPoint_2 (Point_2_x center + Point_2_x perp * offset - Point_2_x dir * diagonal / 2)
               (Point_2_y center + Point_2_y perp * offset - Point_2_y dir * diagonal / 2))
    (mkPoint_2 (Point_2_x center + Point_2_x perp * offset + Point_2_x dir * diagonal / 2)
               (Point_2_y center + Point_2_y perp * offset + Point_2_y dir * diagonal / 2)).

(** The body of the loop of the general branch: the candidate is clipped
    and pushed onto [hatchLines] when [clipLine] returns [true]. *)
Definition keepClipped (bottomLeft topRight center : Point_2)
    (angleRadians diagonal : R) (offset : R) (hatchLines : Lines) : run Lines :=
  let line := candidate center angleRadians diagonal offset in
  let* r := clipLine line bottomLeft topRight in
  let (kept, line) := r in
  if kept then Done (push_back hatchLines line) else Done hatchLines.

(** The body of [main] from the check of [step] to the end of the
    generation, with the example rectangle's corners as parameters. *)
Definition generateHatchLines (bottomLeft topRight : Point_2) (angleDegrees step : R)
    : run Exit :=
  if Rle_dec step 0 then
    Done (mkExit 1 stepError [])
  else
    let angleDegrees := normalizeAngle angleDegrees in
    let angleRadians := degreesToRadians angleDegrees in
    let width := Point_2_x topRight - Point_2_x bottomLeft in
    let height := Point_2_y topRight - Point_2_y bottomLeft in
    let diagonal := sqrt (width * width + height * height) in
    let center := mkPoint_2 ((Point_2_x bottomLeft + Point_2_x topRight) / 2)
                            ((Point_2_y bottomLeft + Point_2_y topRight) / 2) in
    let* hatchLines :=
      if eqR angleDegrees 0 || eqR angleDegrees 360 then
        forLoop (tripCount (Point_2_y bottomLeft) (Point_2_y topRight) step)
          (fun y => leR y (Point_2_y topRight)) (fun y => y + step)
          (fun y hatchLines =>
             Done (push_back hatchLines
                     (mkLine_2 (mkPoint_2 (Point_2_x bottomLeft) y)
                               (mkPoint_2 (Point_2_x topRight) y))))
          (Point_2_y bottomLeft) []
      else if eqR angleDegrees 180 || eqR angleDegrees (-180) then
        forLoop (tripCount (Point_2_y bottomLeft) (Point_2_y topRight) step)
          (fun y => geR y (Point_2_y bottomLeft)) (fun y => y - step)
          (fun y hatchLines =>
             Done (push_back hatchLines
                     (mkLine_2 (mkPoint_2 (Point_2_x bottomLeft) y)
                               (mkPoint_2 (Point_2_x topRight) y))))
          (Point_2_y topRight) []
      else if eqR angleDegrees 90 || eqR angleDegrees (-90)
              || eqR angleDegrees 270 || eqR angleDegrees (-270) then
        forLoop (tripCount (Point_2_x bottomLeft) (Point_2_x topRight) step)
          (fun x => leR x (Point_2_x topRight)) (fun x => x + step)
          (fun x hatchLines =>
             Done (push_back hatchLines
                     (mkLine_2 (mkPoint_2 x (Point_2_y bottomLeft))
                               (mkPoint_2 x (Point_2_y topRight)))))
          (Point_2_x bottomLeft) []
      else
        forLoop (tripCount (- diagonal / 2) (diagonal / 2) step)
          (fun offset => leR offset (diagonal / 2)) (fun offset => offset + step)
          (keepClipped bottomLeft topRight center angleRadians diagonal)
          (- diagonal / 2) []
    in
    Done (mkExit 0 EmptyString hatchLines).

(** [main] with its example rectangle (0,0)-(20,10); [angleDegrees] and
    [step] are the values left by the parsing of the command line. *)
Definition main (angleDegrees step : R) : run Exit :=
  generateHatchLines (mkPoint_2 0 0) (mkPoint_2 20 10) angleDegrees step.

(** ** The normalisation of the angle on binary64 values *)

(** [std::fmod] on doubles.  The remainder of two finite doubles is computed
    on their integer mantissas, brought to the smaller of the two exponents;
    it has the sign of [x], a magnitude below that of [y], and is a double
    itself, so no rounding takes place. *)
Definition fmod64 (x y : float) : float :=
  match Prim2SF x, Prim2SF y with
  | S754_nan, _ | _, S754_nan => nan
  | S754_infinity _, _ => nan
  | _, S754_zero _ => nan
  | S754_zero _, _ => x
  | S754_finite _ _ _, S754_infinity _ => x
  | S754_finite sx mx ex, S754_finite _ my ey =>
      let e := Z.min ex ey in
      let r := Z.modulo (Z.pos mx * 2 ^ (ex - e)) (Z.pos my * 2 ^ (ey - e)) in
      SF2Prim (match r with Z.pos m => S754_finite sx m e | _ => S754_zero sx end)
  end.

Definition normalizeAngle64 (angleDegrees : float) : float :=
  let angleDegrees := fmod64 angleDegrees 360 in
  if PrimFloat.ltb angleDegrees 0 then PrimFloat.add angleDegrees 360
  else angleDegrees.

(** ** The program on binary64 values *)

(** The same program with its [double] values as the binary64 numbers of
    the kernel: every sum, difference, product and quotient is rounded to
    the nearest double, overflows to an infinity and yields NaN where
    IEEE 754 says so; comparisons with NaN are false.  [std::sqrt] is the
    correctly rounded square root.  [std::cos] and [std::sin] belong to the
    C library and are parameters of the generation. *)
Module B64.
Local Open Scope float_scope.

Record Point_2 : Type := mkPoint_2 { Point_2_x : float; Point_2_y : float }.

Record Line_2 : Type := mkLine_2 { Line_2_start : Point_2; Line_2_end : Point_2 }.

Definition Lines : Type := list Line_2.

Definition computeOutCode (x y : float) (bottomLeft topRight : Point_2) : Z :=
  let code := INSIDE in
  let code :=
    if x <? Point_2_x bottomLeft then Z.lor code LEFT
    else if Point_2_x topRight <? x then Z.lor code RIGHT
    else code in
  let code :=
    if y <? Point_2_y bottomLeft then Z.lor code BOTTOM
    else if Point_2_y topRight <? y then Z.lor code TOP
    else code in
  code.

Record ClipState : Type := mkClipState {
  x0 : float; y0 : float;
  x1 : float; y1 : float;
  outcode0 : Z;
  outcode1 : Z
}.

Inductive ClipStep : Type :=
| Break (accept : bool)
| Continue (s : ClipState).

(** The intersection point of the [else] branch.  A division by zero is
    no event here: it yields an infinity or NaN. *)
Definition clipPoint (s : ClipState) (outcodeOut : Z)
    (bottomLeft topRight : Point_2) : float * float :=
  if truthy (Z.land outcodeOut TOP) then
    (x0 s + (x1 s - x0 s) * (Point_2_y topRight - y0 s) / (y1 s - y0 s),
     Point_2_y topRight)
  else if truthy (Z.land outcodeOut BOTTOM) then
    (x0 s + (x1 s - x0 s) * (Point_2_y bottomLeft - y0 s) / (y1 s - y0 s),
     Point_2_y bottomLeft)
  else if truthy (Z.land outcodeOut RIGHT) then
    (Point_2_x topRight,
     y0 s + (y1 s - y0 s) * (Point_2_x topRight - x0 s) / (x1 s - x0 s))
  else
    (Point_2_x bottomLeft,
     y0 s + (y1 s - y0 s) * (Point_2_x bottomLeft - x0 s) / (x1 s - x0 s)).

Definition clipBody (s : ClipState) (bottomLeft topRight : Point_2) : ClipStep :=
  if negb (truthy (Z.lor (outcode0 s) (outcode1 s))) then
    Break true
  else if truthy (Z.land (outcode0 s) (outcode1 s)) then
    Break false
  else
    let outcodeOut := if truthy (outcode0 s) then outcode0 s else outcode1 s in
    let (x, y) := clipPoint s outcodeOut bottomLeft topRight in
    if Z.eqb outcodeOut (outcode0 s) then
      Continue (mkClipState x y (x1 s) (y1 s)
                  (computeOutCode x y bottomLeft topRight) (outcode1 s))
    else
      Continue (mkClipState (x0 s) (y0 s) x y
                  (outcode0 s) (computeOutCode x y bottomLeft topRight)).

(** The loop [while (true) { ... }], run for at most [fuel] passes. *)
Fixpoint clipLoop (fuel : nat) (s : ClipState) (bottomLeft topRight : Point_2)
    : run (bool * ClipState) :=
  match fuel with
  | O => Unfinished
  | S fuel' =>
      match clipBody s bottomLeft topRight with
      | Break accept => Done (accept, s)
      | Continue s' => clipLoop fuel' s' bottomLeft topRight
      end
  end.

Definition clipInit (line : Line_2) (bottomLeft topRight : Point_2) : ClipState :=
  let x0 := Point_2_x (Line_2_start line) in
  let y0 := Point_2_y (Line_2_start line) in
  let x1 := Point_2_x (Line_2_end line) in
  let y1 := Point_2_y (Line_2_end line) in
  mkClipState x0 y0 x1 y1
    (computeOutCode x0 y0 bottomLeft topRight)
    (computeOutCode x1 y1 bottomLeft topRight).

(** [clipLine] with a budget of loop passes: the returned [bool] and the
    value of the reference parameter [line] on return. *)
Definition clipLine (fuel : nat) (line : Line_2) (bottomLeft topRight : Point_2)
    : run (bool * Line_2) :=
  let* r := clipLoop fuel (clipInit line bottomLeft topRight) bottomLeft topRight in
  let (accept, s) := r in
  if accept then
    Done (true, mkLine_2 (mkPoint_2 (x0 s) (y0 s)) (mkPoint_2 (x1 s) (y1 s)))
  else
    Done (false, line).

(** [std::numbers::pi]: the double nearest to pi. *)
Definition pi : float := 0x1.921fb54442d18p+1.

Definition degreesToRadians (degrees : float) : float := degrees * pi / 180.

(** A loop [for (double v = init; cond (v); v = next (v)) body], run for at
    most [fuel] passes. *)
Fixpoint forLoop (fuel : nat) (cond : float -> bool) (next : float -> float)
    (body : float -> Lines -> run Lines) (v : float) (hatchLines : Lines) : run Lines :=
  if cond v then
    match fuel with
    | O => Unfinished
    | S fuel' =>
        let* hatchLines' := body v hatchLines in
        forLoop fuel' cond next body (next v) hatchLines'
    end
  else Done hatchLines.

Definition push_back (hatchLines : Lines) (line : Line_2) : Lines := hatchLines ++ [line].

Record Exit : Type := mkExit {
  exitCode : Z;
  errorText : string;
  hatchLines : Lines
}.

Section Generation.
Variables cos sin : float -> float.

(** The candidate line of the general branch for one [offset]. *)
Definition candidate (center : Point_2) (angleRadians diagonal offset : float) : Line_2 :=
  let dir := mkPoint_2 (cos angleRadians) (sin angleRadians) in
  let perp := mkPoint_2 (- Point_2_y dir) (Point_2_x dir) in
  mkLine_2
    (mkPoint_2 (Point_2_x center + Point_2_x perp * offset - Point_2_x dir * diagonal / 2)
               (Point_2_y center + Point_2_y perp * offset - Point_2_y dir * diagonal / 2))
    (mkPoint_2 (Point_2_x center + Point_2_x perp * offset + Point_2_x dir * diagonal / 2)
               (Point_2_y center + Point_2_y perp * offset + Point_2_y dir * diagonal / 2)).

Definition keepClipped (fuel : nat) (bottomLeft topRight center : Point_2)
    (angleRadians diagonal : float) (offset : float) (hatchLines : Lines) : run Lines :=
  let line := candidate center angleRadians diagonal offset in
  let* r := clipLine fuel line bottomLeft topRight in
  let (kept, line) := r in
  if kept then Done (push_back hatchLines line) else Done hatchLines.

(** The body of [main] from the check of [step] to the end of the
    generation; [fuel] bounds the passes of each loop. *)
Definition generateHatchLines (fuel : nat) (bottomLeft topRight : Point_2)
    (angleDegrees step : float) : run Exit :=
  if step <=? 0 then
    Done (mkExit 1 stepError [])
  else
    let angleDegrees := normalizeAngle64 angleDegrees in
    let angleRadians := degreesToRadians angleDegrees in
    let width := Point_2_x topRight - Point_2_x bottomLeft in
    let height := Point_2_y topRight - Point_2_y bottomLeft in
    let diagonal := PrimFloat.sqrt (width * width + height * height) in
    let center := mkPoint_2 ((Point_2_x bottomLeft + Point_2_x topRight) / 2)
                            ((Point_2_y bottomLeft + Point_2_y topRight) / 2) in
    let* hatchLines :=
      if (angleDegrees =? 0) || (angleDegrees =? 360) then
        forLoop fuel
          (fun y => y <=? Point_2_y topRight) (fun y => y + step)
          (fun y hatchLines =>
             Done (push_back hatchLines
                     (mkLine_2 (mkPoint_2 (Point_2_x bottomLeft) y)
                               (mkPoint_2 (Point_2_x topRight) y))))
          (Point_2_y bottomLeft) []
      else if (angleDegrees =? 180) || (angleDegrees =? -180) then
        forLoop fuel
          (fun y => Point_2_y bottomLeft <=? y) (fun y => y - step)
          (fun y hatchLines =>
             Done (push_back hatchLines
                     (mkLine_2 (mkPoint_2 (Point_2_x bottomLeft) y)
                               (mkPoint_2 (Point_2_x topRight) y))))
          (Point_2_y topRight) []
      else if (angleDegrees =? 90) || (angleDegrees =? -90)
              || (angleDegrees =? 270) || (angleDegrees =? -270) then
        forLoop fuel
          (fun x => x <=? Point_2_x topRight) (fun x => x + step)
          (fun x hatchLines =>
             Done (push_back hatchLines
                     (mkLine_2 (mkPoint_2 x (Point_2_y bottomLeft))
                               (mkPoint_2 x (Point_2_y topRight)))))
          (Point_2_x bottomLeft) []
      else
        forLoop fuel
          (fun offset => offset <=? diagonal / 2) (fun offset => offset + step)
          (keepClipped fuel bottomLeft topRight center angleRadians diagonal)
          (- diagonal / 2) []
    in
    Done (mkExit 0 EmptyString hatchLines).

(** [main] with its example rectangle (0,0)-(20,10). *)
Definition main (fuel : nat) (angleDegrees step : float) : run Exit :=
  generateHatchLines fuel (mkPoint_2 0 0) (mkPoint_2 20 10) angleDegrees step.

End Generation.

End B64.

(** ** The command line of main *)

(** The words of [argv] from index 1 on, read by the loop of [main] into
    [angleDegrees] and [step].  [std::stod] is a parameter: the number it
    reads from a word, or nothing when it throws (the exception is not
    caught, the program ends there).  A flag in last position fails the
    test [i + 1 < argc] and is passed over. *)
Section CommandLine.
Variable stod : string -> option R.

Fixpoint parseArgs (args : list string) (angleDegrees step : R) : option (R * R) :=
  match args with
  | [] => Some (angleDegrees, step)
  | arg :: rest =>
      match rest with
      | [] => Some (angleDegrees, step)
      | value :: rest' =>
          if String.eqb arg "--angle" then
            match stod value with
            | Some v => parseArgs rest' v step
            | None => None
            end
          else if String.eqb arg "--step" then
            match stod value with
            | Some v => parseArgs rest' angleDegrees v
            | None => None
            end
          else parseArgs rest angleDegrees step
      end
  end.

End CommandLine.

(** ** The log and the SVG file *)

Definition Contour : Type := list Point_2.

(** The contour pushed into [contoursPoints]; [main] takes its points 0 and
    2 as [bottomLeft] and [topRight]. *)
Definition exampleContour : Contour :=
  [mkPoint_2 0 0; mkPoint_2 20 0; mkPoint_2 20 10; mkPoint_2 0 10].

(** The log loop: the value of [lineNumber] written with each line.  The
    counter is an [int]; it is counted here in [Z], which agrees with the
    [int] as long as there are fewer than 2^31 lines. *)
Fixpoint logLoop (lineNumber : Z) (hatchLines : Lines) : list (Z * Line_2) :=
  match hatchLines with
  | [] => []
  | line :: rest => (lineNumber, line) :: logLoop (lineNumber + 1) rest
  end.

Definition logEntries (hatchLines : Lines) : list (Z * Line_2) := logLoop 1 hatchLines.

Definition scale : R := 10.

(** A [<line>] element: the four numbers written into it and its stroke. *)
Record SvgLine : Type := mkSvgLine {
  svg_x1 : R; svg_y1 : R; svg_x2 : R; svg_y2 : R;
  svg_stroke : string; svg_stroke_width : string
}.

Definition hatchElement (line : Line_2) : SvgLine :=
  mkSvgLine (Point_2_x (Line_2_start line) * scale) (Point_2_y (Line_2_start line) * scale)
            (Point_2_x (Line_2_end line) * scale) (Point_2_y (Line_2_end line) * scale)
            "black" "0.5".

(** One pass of the loop that draws the rectangle, from [rect[i]] to
    [rect[(i + 1) % rect.size()]]; an index out of range has no value. *)
Definition contourElement (rect : Contour) (i : nat) : option SvgLine :=
  match nth_error rect i, nth_error rect ((i + 1) mod List.length rect) with
  | Some p1, Some p2 =>
      Some (mkSvgLine (Point_2_x p1 * scale) (Point_2_y p1 * scale)
                      (Point_2_x p2 * scale) (Point_2_y p2 * scale) "red" "1")
  | _, _ => None
  end.

Fixpoint contourLoop (rect : Contour) (indices : list nat) : option (list SvgLine) :=
  match indices with
  | [] => Some []
  | i :: rest =>
      match contourElement rect i, contourLoop rect rest with
      | Some e, Some es => Some (e :: es)
      | _, _ => None
      end
  end.

Definition contourElements (rect : Contour) : option (list SvgLine) :=
  contourLoop rect (seq 0 (List.length rect)).

(** The elements of hatch.svg in the order written: the hatch lines, then
    the edges of the contour. *)
Definition svgElements (hatchLines : Lines) (rect : Contour) : option (list SvgLine) :=
  match contourElements rect with
  | Some edges => Some (map hatchElement hatchLines ++ edges)
  | None => None
  end.

(** The size of the drawing that the [<svg>] tag declares. *)
Definition svgWidth : R := 300.

Definition svgHeight : R := 200.

Definition newline : string := String (Ascii.ascii_of_nat 10) EmptyString.

Definition svgHeader : string :=
  "<svg xmlns='http://www.w3.org/2000/svg' width='300' height='200'>" ++ newline.

(** The text of hatch.svg; [show] stands for the stream's formatting of a
    [double]. *)
Section SvgText.
Variable show : R -> string.

Definition lineTag (e : SvgLine) : string :=
  "<line x1='" ++ show (svg_x1 e) ++ "' y1='" ++ show (svg_y1 e)
  ++ "' x2='" ++ show (svg_x2 e) ++ "' y2='" ++ show (svg_y2 e)
  ++ "' stroke='" ++ svg_stroke e ++ "' stroke-width='" ++ svg_stroke_width e
  ++ "'/>" ++ newline.

Definition svgText (elements : list SvgLine) : string :=
  svgHeader ++ String.concat "" (map lineTag elements) ++ "</svg>".

End SvgText.

(** ** Vocabulary of the properties *)

(** The rectangle invariant of the data model. *)
Definition valid (bottomLeft topRight : Point_2) : Prop :=
  Point_2_x bottomLeft <= Point_2_x topRight /\
  Point_2_y bottomLeft <= Point_2_y topRight.

(** A point within or on the boundary of the rectangle. *)
Definition inside (p bottomLeft topRight : Point_2) : Prop :=
  Point_2_x bottomLeft <= Point_2_x p <= Point_2_x topRight /\
  Point_2_y bottomLeft <= Point_2_y p <= Point_2_y topRight.

(** The loop invariant of [clipLine]: each outcode is the outcode of the
    endpoint it belongs to. *)
Definition coded (s : ClipState) (bottomLeft topRight : Point_2) : Prop :=
  outcode0 s = computeOutCode (x0 s) (y0 s) bottomLeft topRight /\
  outcode1 s = computeOutCode (x1 s) (y1 s) bottomLeft topRight.

(** The test and the choice made on the way to the trimming branch. *)
Definition trims (s : ClipState) : Prop :=
  truthy (Z.lor (outcode0 s) (outcode1 s)) = true /\
  truthy (Z.land (outcode0 s) (outcode1 s)) = false.

Definition outcodeOut (s : ClipState) : Z :=
  if truthy (outcode0 s) then outcode0 s else outcode1 s.

(** The values [lo, lo + d, lo + 2 * d, ...], [n] of them. *)
Definition ladder (lo d : R) (n : nat) : list R :=
  map (fun k => lo + INR k * d) (seq 0 n).

(** A loop body applied to a list of values of the loop variable in turn. *)
Fixpoint foldRun (body : R -> Lines -> run Lines) (vs : list R) (acc : Lines)
    : run Lines :=
  match vs with
  | [] => Done acc
  | v :: vs' => let* acc' := body v acc in foldRun body vs' acc'
  end.

Definition horizontal (bottomLeft topRight : Point_2) (y : R) : Line_2 :=
  mkLine_2 (mkPoint_2 (Point_2_x bottomLeft) y) (mkPoint_2 (Point_2_x topRight) y).

(** The position of a coordinate [u] against the interval from [lo] to
    [hi], with the outcode bit it contributes. *)
Inductive AxisView (u lo hi : R) (below above : Z) : Z -> Prop :=
| axis_below : u < lo -> AxisView u lo hi below above below
| axis_above : lo <= u -> hi < u -> AxisView u lo hi below above above
| axis_within : lo <= u -> u <= hi -> AxisView u lo hi below above 0%Z.

(** The states in which the loop of [clipLine] starts a pass, for a given
    argument [line]. *)
Inductive reached (line : Line_2) (bottomLeft topRight : Point_2) : ClipState -> Prop :=
| reached_init :
    reached line bottomLeft topRight (clipInit line bottomLeft topRight)
| reached_pass (s s' : ClipState) :
    reached line bottomLeft topRight s ->
    clipBody s bottomLeft topRight = Done (Continue s') ->
    reached line bottomLeft topRight s'.

(** Both endpoints of a line strictly beyond the same edge of the
    rectangle. *)
Definition beyondOneEdge (line : Line_2) (bottomLeft topRight : Point_2) : Prop :=
  let p := Line_2_start line in
  let q := Line_2_end line in
  (Point_2_x p < Point_2_x bottomLeft /\ Point_2_x q < Point_2_x bottomLeft) \/
  (Point_2_x topRight < Point_2_x p /\ Point_2_x topRight < Point_2_x q) \/
  (Point_2_y p < Point_2_y bottomLeft /\ Point_2_y q < Point_2_y bottomLeft) \/
  (Point_2_y topRight < Point_2_y p /\ Point_2_y topRight < Point_2_y q).

(** The words of a command line: an option with its value, or any other
    word. *)
Inductive Word : Type :=
| AngleOption (value : string)
| StepOption (value : string)
| OtherWord (word : string).

Definition words (w : Word) : list string :=
  match w with
  | AngleOption value => ["--angle"; value]
  | StepOption value => ["--step"; value]
  | OtherWord word => [word]
  end%string.

Definition plainWord (w : Word) : Prop :=
  match w with
  | OtherWord word => word <> "--angle"%string /\ word <> "--step"%string
  | _ => True
  end.

(** The options taken one after the other, each overwriting the angle or
    the step read before. *)
Fixpoint applyWords (stod : string -> option R) (ws : list Word) (angleDegrees step : R)
    : option (R * R) :=
  match ws with
  | [] => Some (angleDegrees, step)
  | AngleOption value :: rest =>
      match stod value with
      | Some v => applyWords stod rest v step
      | None => None
      end
  | StepOption value :: rest =>
      match stod value with
      | Some v => applyWords stod rest angleDegrees v
      | None => None
      end
  | OtherWord _ :: rest => applyWords stod rest angleDegrees step
  end.

(** ** Vocabulary of the properties on binary64 values *)

(** No comparison of the code places the point outside the rectangle. *)
Definition notBeyond (p bottomLeft topRight : B64.Point_2) : Prop :=
  PrimFloat.ltb (B64.Point_2_x p) (B64.Point_2_x bottomLeft) = false /\
  PrimFloat.ltb (B64.Point_2_x topRight) (B64.Point_2_x p) = false /\
  PrimFloat.ltb (B64.Point_2_y p) (B64.Point_2_y bottomLeft) = false /\
  PrimFloat.ltb (B64.Point_2_y topRight) (B64.Point_2_y p) = false.

(** One coordinate of the point is a coordinate of an edge. *)
Definition onEdgeLine (p bottomLeft topRight : B64.Point_2) : Prop :=
  B64.Point_2_x p = B64.Point_2_x bottomLeft \/ B64.Point_2_x p = B64.Point_2_x topRight \/
  B64.Point_2_y p = B64.Point_2_y bottomLeft \/ B64.Point_2_y p = B64.Point_2_y topRight.

Definition coded64 (s : B64.ClipState) (bl tr : B64.Point_2) : Prop :=
  B64.outcode0 s = B64.computeOutCode (B64.x0 s) (B64.y0 s) bl tr /\
  B64.outcode1 s = B64.computeOutCode (B64.x1 s) (B64.y1 s) bl tr.

Definition start64 (s : B64.ClipState) : B64.Point_2 := B64.mkPoint_2 (B64.x0 s) (B64.y0 s).

Definition end64 (s : B64.ClipState) : B64.Point_2 := B64.mkPoint_2 (B64.x1 s) (B64.y1 s).

(** What a pass of the loop may have done to an endpoint [p] of the
    argument: nothing, or moved it to a point [q] on an edge line. *)
Definition trimmed (p q bl tr : B64.Point_2) : Prop :=
  q = p \/ (B64.computeOutCode (B64.Point_2_x p) (B64.Point_2_y p) bl tr <> INSIDE /\
            onEdgeLine q bl tr).

(** The values of a loop variable: [v], [next v], ... ([n] of them). *)
Fixpoint iterates (next : float -> float) (v : float) (n : nat) : list float :=
  match n with
  | O => []
  | S n' => v :: iterates next (next v) n'
  end.

Fixpoint foldRun64 (body : float -> B64.Lines -> run B64.Lines) (vs : list float)
    (acc : B64.Lines) : run B64.Lines :=
  match vs with
  | [] => Done acc
  | v :: vs' => let* acc' := body v acc in foldRun64 body vs' acc'
  end.

(** A run of [n] passes of a loop: the guard holds for the first [n]
    values of the variable and fails for the next one. *)
Definition runs (cond : float -> bool) (next : float -> float) (v : float) (n : nat) : Prop :=
  Forall (fun u => cond u = true) (iterates next v n) /\
  cond (Nat.iter n next v) = false.

Definition horizontal64 (bottomLeft topRight : B64.Point_2) (y : float) : B64.Line_2 :=
  B64.mkLine_2 (B64.mkPoint_2 (B64.Point_2_x bottomLeft) y)
               (B64.mkPoint_2 (B64.Point_2_x topRight) y).

Definition vertical64 (bottomLeft topRight : B64.Point_2) (x : float) : B64.Line_2 :=
  B64.mkLine_2 (B64.mkPoint_2 x (B64.Point_2_y bottomLeft))
               (B64.mkPoint_2 x (B64.Point_2_y topRight)).

(** An input on which the trimming loop does not stop: the square
    (0.1, 0.1)-(1.1, 1.1) and a piece of its diagonal that leaves it through
    the corner (0.1, 0.1), from (0.6, 0.6) to (-0.4, -0.4). *)
Definition cornerBottomLeft : B64.Point_2 :=
  B64.mkPoint_2 0x1.999999999999ap-4 0x1.999999999999ap-4.

Definition cornerTopRight : B64.Point_2 :=
  B64.mkPoint_2 0x1.199999999999ap+0 0x1.199999999999ap+0.

Definition cornerLine : B64.Line_2 :=
  B64.mkLine_2 (B64.mkPoint_2 0x1.3333333333333p-1 0x1.3333333333333p-1)
               (B64.mkPoint_2 (-0x1.999999999999ap-2) (-0x1.999999999999ap-2)).

(** A rectangle whose corners are ordered, as the comparison of doubles
    has it (so no coordinate of a corner is NaN). *)
Definition valid64 (bottomLeft topRight : B64.Point_2) : Prop :=
  PrimFloat.leb (B64.Point_2_x bottomLeft) (B64.Point_2_x topRight) = true /\
  PrimFloat.leb (B64.Point_2_y bottomLeft) (B64.Point_2_y topRight) = true.

(** The containment of a point: no comparison places it outside the
    rectangle, and each coordinate that is a number lies within the bounds
    of the rectangle. *)
Definition contained (p bottomLeft topRight : B64.Point_2) : Prop :=
  notBeyond p bottomLeft topRight /\
  (PrimFloat.is_nan (B64.Point_2_x p) = false ->
   PrimFloat.leb (B64.Point_2_x bottomLeft) (B64.Point_2_x p) = true /\
   PrimFloat.leb (B64.Point_2_x p) (B64.Point_2_x topRight) = true) /\
  (PrimFloat.is_nan (B64.Point_2_y p) = false ->
   PrimFloat.leb (B64.Point_2_y bottomLeft) (B64.Point_2_y p) = true /\
   PrimFloat.leb (B64.Point_2_y p) (B64.Point_2_y topRight) = true).

Definition lineContained (bottomLeft topRight : B64.Point_2) (line : B64.Line_2) : Prop :=
  contained (B64.Line_2_start line) bottomLeft topRight /\
  contained (B64.Line_2_end line) bottomLeft topRight.

(** A line through the rectangle (0,0)-(20,10) whose interpolation
    overflows: from (-1e308, -1e308) to (1e308, 1e308). *)
Definition overflowLine : B64.Line_2 :=
  B64.mkLine_2
    (B64.mkPoint_2 (-0x1.1ccf385ebc8a0p+1023) (-0x1.1ccf385ebc8a0p+1023))
    (B64.mkPoint_2 0x1.1ccf385ebc8a0p+1023 0x1.1ccf385ebc8a0p+1023).

(** The cosine and the sine of 45 degrees as doubles, for every argument:
    stand-ins for the functions of the C library in examples. *)
Definition cos45 (radians : float) : float := 0x1.6a09e667f3bcdp-1.

Definition sin45 (radians : float) : float := 0x1.6a09e667f3bccp-1.

Definition exampleBottomLeft : B64.Point_2 := B64.mkPoint_2 0 0.

Definition exampleTopRight : B64.Point_2 := B64.mkPoint_2 20 10.

(** The diagonal and the centre of the rectangle, as [main] computes
    them. *)
Definition diagonal64 (bottomLeft topRight : B64.Point_2) : float :=
  let width := (B64.Point_2_x topRight - B64.Point_2_x bottomLeft)%float in
  let height := (B64.Point_2_y topRight - B64.Point_2_y bottomLeft)%float in
  PrimFloat.sqrt (width * width + height * height)%float.

Definition center64 (bottomLeft topRight : B64.Point_2) : B64.Point_2 :=
  B64.mkPoint_2 ((B64.Point_2_x bottomLeft + B64.Point_2_x topRight) / 2)%float
                ((B64.Point_2_y bottomLeft + B64.Point_2_y topRight) / 2)%float.

(** What the general branch keeps of a candidate: the line that
    [clipLine] returns when it accepts, nothing otherwise. *)
Definition clipped64 (fuel : nat) (bottomLeft topRight : B64.Point_2) (line : B64.Line_2)
    : B64.Lines :=
  match B64.clipLine fuel line bottomLeft topRight with
  | Done (true, line') => [line']
  | _ => []
  end.

(** ** Vocabulary of binary64 arithmetic *)

Section Binary64Values.
Local Open Scope Z_scope.

(** The value of a double in units of 2^-2200, an integer for every double
    and for every intermediate result of the rounding functions; the
    infinities are given a magnitude above that of every finite double. *)
Definition bias : Z := 2200.

Definition magnitude (m : positive) (e : Z) : Z := Z.pos m * 2 ^ (e + bias).

Definition huge : Z := 2 ^ (emax + bias).

Definition value (x : spec_float) : Z :=
  match x with
  | S754_zero _ => 0
  | S754_infinity s => cond_Zopp s huge
  | S754_nan => 0
  | S754_finite s m e => cond_Zopp s (magnitude m e)
  end.

Definition isNumber (x : spec_float) : bool :=
  match x with S754_nan => false | _ => true end.

(** What the rounding functions may return for the mantissa [m1] at the
    exponent [E]: the double of that value, with sign [s]. *)
Definition rounded (s : bool) (m1 E : Z) (r : spec_float) : Prop :=
  match r with
  | S754_zero s' => s' = s /\ m1 = 0
  | S754_infinity s' => s' = s /\ huge <= m1 * 2 ^ (E + bias)
  | S754_finite s' m e => s' = s /\ - bias <= e /\ magnitude m e = m1 * 2 ^ (E + bias)
  | S754_nan => False
  end.

Definition finite (x : spec_float) : bool :=
  match x with S754_zero _ | S754_finite _ _ _ => true | _ => false end.

(** A double that is not NaN, and the value of a double. *)
Definition notNaN (x : float) : bool := isNumber (Prim2SF x).

Definition val (x : float) : Z := value (Prim2SF x).

End Binary64Values.

(** * Properties *)

Create HintDb hatch.

(** ** computeOutCode *)

Lemma computeOutCode_view (x y : R) (bl tr : Point_2) :
  exists h v,
    computeOutCode x y bl tr = Z.lor h v /\
    AxisView x (Point_2_x bl) (Point_2_x tr) LEFT RIGHT h /\
    AxisView y (Point_2_y bl) (Point_2_y tr) BOTTOM TOP v.
Proof.
  unfold computeOutCode.
  destruct (Rlt_dec x (Point_2_x bl)) as [Hl|Hl];
    [exists LEFT|destruct (Rgt_dec x (Point_2_x tr)) as [Hr|Hr]; [exists RIGHT|exists 0%Z]];
    (destruct (Rlt_dec y (Point_2_y bl)) as [Hb|Hb];
     [exists BOTTOM|destruct (Rgt_dec y (Point_2_y tr)) as [Ht|Ht]; [exists TOP|exists 0%Z]]);
    (split; [reflexivity|split]);
    first [ apply axis_below; lra | apply axis_above; lra | apply axis_within; lra ].
Qed.

Lemma computeOutCode_inside (x y : R) (bl tr : Point_2) :
  computeOutCode x y bl tr = INSIDE <-> inside (mkPoint_2 x y) bl tr.
Proof.
  unfold inside; cbn [Point_2_x Point_2_y].
  destruct (computeOutCode_view x y bl tr) as (h & v & -> & Hh & Hv).
  destruct Hh, Hv; split; intros Hc;
    first [ discriminate Hc | lra | reflexivity ].
Qed.

(** ** Proof tools *)

(** Evaluation of the tests on outcodes that are known constants. *)
Ltac zfold :=
  repeat match goal with
  | |- context [truthy ?c] =>
      let v := eval vm_compute in (truthy c) in
      progress change (truthy c) with v
  | |- context [Z.eqb ?a ?b] =>
      let v := eval vm_compute in (Z.eqb a b) in
      progress change (Z.eqb a b) with v
  end; cbv beta iota.

(** The views of the two endpoints of a state that satisfies the loop
    invariant, case by case. *)
Ltac view_state s bl tr :=
  let a0 := fresh "a0" in let b0 := fresh "b0" in
  let a1 := fresh "a1" in let b1 := fresh "b1" in
  let c0 := fresh "c0" in let c1 := fresh "c1" in
  let E0 := fresh "E0" in let E1 := fresh "E1" in
  let h0 := fresh "h0" in let v0 := fresh "v0" in
  let h1 := fresh "h1" in let v1 := fresh "v1" in
  let C0 := fresh "C0" in let C1 := fresh "C1" in
  let Hh0 := fresh "Hh0" in let Hv0 := fresh "Hv0" in
  let Hh1 := fresh "Hh1" in let Hv1 := fresh "Hv1" in
  intros [E0 E1];
  destruct s as [a0 b0 a1 b1 c0 c1];
  cbn [x0 y0 x1 y1 outcode0 outcode1] in *;
  destruct (computeOutCode_view a0 b0 bl tr) as (h0 & v0 & C0 & Hh0 & Hv0);
  destruct (computeOutCode_view a1 b1 bl tr) as (h1 & v1 & C1 & Hh1 & Hv1);
  rewrite C0 in E0; rewrite C1 in E1; subst c0 c1;
  destruct Hh0, Hv0, Hh1, Hv1.

(** Settles the comparisons of the goal that linear arithmetic decides. *)
Ltac rdec :=
  repeat match goal with
  | |- context [Rlt_dec ?a ?b] =>
      destruct (Rlt_dec a b); [try (exfalso; lra) | try (exfalso; lra)]
  | |- context [Rgt_dec ?a ?b] =>
      destruct (Rgt_dec a b); [try (exfalso; lra) | try (exfalso; lra)]
  | |- context [Rle_dec ?a ?b] =>
      destruct (Rle_dec a b); [try (exfalso; lra) | try (exfalso; lra)]
  | |- context [Rge_dec ?a ?b] =>
      destruct (Rge_dec a b); [try (exfalso; lra) | try (exfalso; lra)]
  | |- context [Req_dec_T ?a ?b] =>
      destruct (Req_dec_T a b); [try (exfalso; lra) | try (exfalso; lra)]
  end.

(** The run of [clipLine] on a line and a rectangle given by numbers. *)
Ltac clip_eval :=
  unfold clipLine, clipLineFuel, clipPasses, clipInit;
  cbn [clipLoop Line_2_start Line_2_end Point_2_x Point_2_y];
  unfold clipBody, clipPoint, computeOutCode, divide;
  repeat (progress
            (cbn [bind negb x0 y0 x1 y1 outcode0 outcode1 Point_2_x Point_2_y];
             rdec; zfold)).

(** ** The loop of clipLine *)

Section ClipLoop.
Variables bottomLeft topRight : Point_2.

Lemma clipInit_coded (line : Line_2) :
  coded (clipInit line bottomLeft topRight) bottomLeft topRight.
Proof. split; reflexivity. Qed.

(** On the way into the trimming branch the two endpoints differ in the
    coordinate that the interpolation divides by. *)
Lemma clipPoint_defined (s : ClipState) :
  coded s bottomLeft topRight -> trims s ->
  (truthy (Z.land (outcodeOut s) TOP) || truthy (Z.land (outcodeOut s) BOTTOM) = true ->
   y1 s <> y0 s) /\
  (truthy (Z.land (outcodeOut s) RIGHT) || truthy (Z.land (outcodeOut s) LEFT) = true ->
   x1 s <> x0 s) /\
  exists xy, clipPoint s (outcodeOut s) bottomLeft topRight = Done xy.
Proof.
  view_state s bottomLeft topRight.
  all: unfold trims, outcodeOut, clipPoint; cbn [x0 y0 x1 y1 outcode0 outcode1].
  all: intros [T1 T2]; vm_compute in T1; vm_compute in T2; try discriminate.
  all: zfold; unfold divide, bind.
  all: repeat split; try (intros B; try discriminate B; lra).
  all: match goal with
       | |- context [Req_dec_T ?d 0] =>
           destruct (Req_dec_T d 0); [exfalso; lra | eexists; reflexivity]
       end.
Qed.

(** A pass never divides by zero, and it preserves the loop invariant. *)
Lemma clipBody_defined (s : ClipState) :
  coded s bottomLeft topRight ->
  exists step, clipBody s bottomLeft topRight = Done step /\
               forall s', step = Continue s' -> coded s' bottomLeft topRight.
Proof.
  intros Hc. unfold clipBody.
  destruct (truthy (Z.lor (outcode0 s) (outcode1 s))) eqn:T1; cbn [negb].
  2:{ eexists; split; [reflexivity | discriminate]. }
  destruct (truthy (Z.land (outcode0 s) (outcode1 s))) eqn:T2.
  { eexists; split; [reflexivity | discriminate]. }
  destruct (clipPoint_defined s Hc (conj T1 T2)) as (_ & _ & [x y] & E).
  unfold outcodeOut in E. rewrite E. cbn [bind].
  destruct Hc as [E0 E1].
  destruct (Z.eqb _ (outcode0 s)); eexists; (split; [reflexivity|]);
    intros s' [= <-]; split; cbn [x0 y0 x1 y1 outcode0 outcode1]; auto.
Qed.

Lemma reached_coded (line : Line_2) (s : ClipState) :
  reached line bottomLeft topRight s -> coded s bottomLeft topRight.
Proof.
  induction 1 as [|s s' _ IH E].
  - apply clipInit_coded.
  - destruct (clipBody_defined s IH) as (step & E' & Hs).
    apply Hs. congruence.
Qed.

(** C3.  In every pass of the loop of [clipLine] that reaches the trimming
    branch (the outcodes are not both zero and their bitwise AND is zero),
    the divisor of the interpolation is not zero: [y1 - y0] when the chosen
    outcode has the TOP or BOTTOM bit, [x1 - x0] when it has the RIGHT or
    LEFT bit; the pass computes its point and goes round again. *)
Theorem trim_divisor_nonzero (line : Line_2) (s : ClipState) :
  reached line bottomLeft topRight s -> trims s ->
  (truthy (Z.land (outcodeOut s) TOP) || truthy (Z.land (outcodeOut s) BOTTOM) = true ->
   y1 s - y0 s <> 0) /\
  (truthy (Z.land (outcodeOut s) RIGHT) || truthy (Z.land (outcodeOut s) LEFT) = true ->
   x1 s - x0 s <> 0) /\
  exists s', clipBody s bottomLeft topRight = Done (Continue s').
Proof.
  intros Hr Ht. pose proof (reached_coded _ _ Hr) as Hc.
  destruct (clipPoint_defined s Hc Ht) as (Hy & Hx & [x y] & E).
  split; [|split].
  - intros B. specialize (Hy B). lra.
  - intros B. specialize (Hx B). lra.
  - destruct Ht as [T1 T2]. unfold clipBody. rewrite T1, T2. cbn [negb].
    unfold outcodeOut in E. rewrite E. cbn [bind].
    destruct (Z.eqb _ _); eexists; reflexivity.
Qed.

(** C8.  Clipping is idempotent: when both endpoints of a line lie inside
    or on the rectangle, both outcodes are INSIDE and [clipLine] returns
    [true] with the line unchanged. *)
Theorem clipLine_idempotent (line : Line_2) :
  inside (Line_2_start line) bottomLeft topRight ->
  inside (Line_2_end line) bottomLeft topRight ->
  computeOutCode (Point_2_x (Line_2_start line)) (Point_2_y (Line_2_start line))
    bottomLeft topRight = INSIDE /\
  computeOutCode (Point_2_x (Line_2_end line)) (Point_2_y (Line_2_end line))
    bottomLeft topRight = INSIDE /\
  clipLine line bottomLeft topRight = Done (true, line).
Proof.
  destruct line as [[a0 b0] [a1 b1]]. cbn [Line_2_start Line_2_end Point_2_x Point_2_y].
  intros H0 H1.
  apply computeOutCode_inside in H0. apply computeOutCode_inside in H1.
  split; [exact H0|]. split; [exact H1|].
  unfold clipLine, clipLineFuel, clipPasses, clipInit.
  cbn [clipLoop Line_2_start Line_2_end Point_2_x Point_2_y].
  unfold clipBody. cbn [x0 y0 x1 y1 outcode0 outcode1].
  rewrite H0, H1. reflexivity.
Qed.

(** C10.  When [clipLine] returns [false], its argument [line] is exactly
    as it was passed in: the trimmed coordinates are written back on the
    accepting path only. *)
Theorem clipLine_reject_keeps_line (line line' : Line_2) :
  clipLine line bottomLeft topRight = Done (false, line') ->
  line' = line.
Proof.
  unfold clipLine, clipLineFuel.
  destruct (clipLoop _ _ _ _) as [[[|] s]| |]; cbn [bind]; intros E;
    try discriminate E.
  injection E as <-. reflexivity.
Qed.

End ClipLoop.

#[export] Hint Resolve clipInit_coded reached_coded reached_init : hatch.

Lemma trim_divisor_nonzero_witness :
  let line := mkLine_2 (mkPoint_2 (-5) 12) (mkPoint_2 30 (-3)) in
  let bl := mkPoint_2 0 0 in
  let tr := mkPoint_2 20 10 in
  let s := clipInit line bl tr in
  (truthy (Z.land (outcodeOut s) TOP) || truthy (Z.land (outcodeOut s) BOTTOM) = true ->
   y1 s - y0 s <> 0) /\
  (truthy (Z.land (outcodeOut s) RIGHT) || truthy (Z.land (outcodeOut s) LEFT) = true ->
   x1 s - x0 s <> 0) /\
  exists s', clipBody s bl tr = Done (Continue s').
Proof.
  intros line bl tr s.
  apply (trim_divisor_nonzero bl tr line s).
  - auto with hatch.
  - unfold trims, s, clipInit, line, bl, tr, computeOutCode.
    cbn [x0 y0 x1 y1 outcode0 outcode1 Point_2_x Point_2_y Line_2_start Line_2_end].
    rdec. split; reflexivity.
Defined.

Lemma clipLine_idempotent_witness :
  let line := mkLine_2 (mkPoint_2 0 3) (mkPoint_2 20 10) in
  let bl := mkPoint_2 0 0 in
  let tr := mkPoint_2 20 10 in
  computeOutCode 0 3 bl tr = INSIDE /\
  computeOutCode 20 10 bl tr = INSIDE /\
  clipLine line bl tr = Done (true, line).
Proof.
  intros line bl tr.
  apply (clipLine_idempotent bl tr line);
    unfold inside, line, bl, tr;
    cbn [Point_2_x Point_2_y Line_2_start Line_2_end]; lra.
Defined.

Lemma clipLine_reject_keeps_line_witness :
  let line := mkLine_2 (mkPoint_2 (-5) 5) (mkPoint_2 5 25) in
  let bl := mkPoint_2 0 0 in
  let tr := mkPoint_2 20 10 in
  clipLine line bl tr = Done (false, line) /\ line = line.
Proof.
  intros line bl tr.
  assert (E : clipLine line bl tr = Done (false, line)).
  { unfold line, bl, tr. clip_eval. reflexivity. }
  split; [exact E | exact (clipLine_reject_keeps_line bl tr line line E)].
Defined.

(** ** Normalisation of the angle *)

Section Normalisation.
Variable angleDegrees : R.

Lemma fmod_small (y : R) : 0 <= angleDegrees < y -> fmod angleDegrees y = angleDegrees.
Proof.
  intros [H0 H1]. unfold fmod, truncate.
  assert (Hy : 0 < y) by lra.
  assert (E : angleDegrees / y * y = angleDegrees) by (field; lra).
  set (q := angleDegrees / y) in *.
  assert (Hq : 0 <= q < 1) by (split; nra).
  destruct (Rle_dec 0 q) as [_|Hn]; [|lra].
  rewrite (Zfloor_eq 0 q) by (simpl; lra). simpl. lra.
Qed.

Lemma normalizeAngle_small :
  0 <= angleDegrees < 360 -> normalizeAngle angleDegrees = angleDegrees.
Proof.
  intros H. unfold normalizeAngle. rewrite fmod_small by exact H.
  destruct (Rlt_dec angleDegrees 0); lra.
Qed.

End Normalisation.

(** C9, as stated for the floating-point computation, fails: for the double
    nearest to -1e-20 the remainder is the input itself, it is negative, and
    adding 360 rounds to exactly 360, which is not below 360. *)
Lemma normalizeAngle64_reaches_360 :
  fmod64 (-0x1.79ca10c924223p-67) 360 = (-0x1.79ca10c924223p-67)%float /\
  PrimFloat.ltb (-0x1.79ca10c924223p-67) 0 = true /\
  normalizeAngle64 (-0x1.79ca10c924223p-67) = 360%float /\
  PrimFloat.ltb (normalizeAngle64 (-0x1.79ca10c924223p-67)) 360 = false.
Proof. vm_compute. repeat split. Qed.

(** ** The generation loops *)

Lemma ladder_S (lo d : R) (n : nat) :
  ladder lo d (S n) = lo :: ladder (lo + d) d n.
Proof.
  unfold ladder. cbn [seq map]. f_equal.
  - cbn [INR]. ring.
  - rewrite <- seq_shift, map_map. apply map_ext. intros k.
    rewrite S_INR. ring.
Qed.

Lemma foldRun_push (f : R -> Line_2) (vs : list R) :
  forall acc,
    foldRun (fun v hatchLines => Done (push_back hatchLines (f v))) vs acc
    = Done (acc ++ map f vs).
Proof.
  induction vs as [|v vs IH]; intros acc; cbn [foldRun map bind].
  - rewrite app_nil_r. reflexivity.
  - rewrite IH. unfold push_back. rewrite <- app_assoc. reflexivity.
Qed.

Section ForLoop.
Variables (cond : R -> bool) (next : R -> R) (body : R -> Lines -> run Lines).

(** A loop whose variable advances by [d] and whose condition holds for
    exactly the first [n] values runs its body over these values. *)
Lemma forLoop_ladder (d : R) :
  (forall v, next v = v + d) ->
  forall (n : nat) (lo : R) (acc : Lines),
    (forall k, cond (lo + INR k * d) = true <-> (k < n)%nat) ->
    forLoop n cond next body lo acc = foldRun body (ladder lo d n) acc.
Proof.
  intros Hnext. induction n as [|n IH]; intros lo acc Hc.
  - cbn [forLoop ladder seq map foldRun].
    destruct (cond lo) eqn:E; [|reflexivity].
    exfalso. assert (H : (0 < 0)%nat); [|lia].
    apply Hc. cbn [INR]. rewrite Rmult_0_l, Rplus_0_r. exact E.
  - rewrite ladder_S. cbn [forLoop foldRun].
    assert (E : cond lo = true).
    { specialize (Hc 0%nat). cbn [INR] in Hc.
      rewrite Rmult_0_l, Rplus_0_r in Hc. apply Hc. lia. }
    rewrite E. destruct (body lo acc) as [acc'| |]; cbn [bind]; try reflexivity.
    rewrite Hnext. apply IH. intros k.
    specialize (Hc (S k)). rewrite S_INR in Hc.
    replace (lo + d + INR k * d) with (lo + (INR k + 1) * d) by ring.
    rewrite Hc. lia.
Qed.

End ForLoop.

Section PositiveStep.
Variable step : R.
Hypothesis step_positive : 0 < step.

Lemma tripCount_spec (lo hi : R) (k : nat) :
  (k < tripCount lo hi step)%nat <-> lo + INR k * step <= hi.
Proof.
  unfold tripCount.
  assert (E : (hi - lo) / step * step = hi - lo) by (field; lra).
  set (r := (hi - lo) / step) in *.
  destruct (archimed r) as [U1 U2].
  rewrite INR_IZR_INZ.
  split; intros H.
  - assert (Hz : (Z.of_nat k + 1 <= up r)%Z) by lia.
    apply IZR_le in Hz. rewrite plus_IZR in Hz. nra.
  - assert (Hz : (Z.of_nat k < up r)%Z) by (apply lt_IZR; nra).
    lia.
Qed.

Lemma tripCount_eq (lo hi : R) (n : nat) :
  lo + INR n * step <= hi -> hi < lo + INR (S n) * step ->
  tripCount lo hi step = S n.
Proof.
  intros H1 H2.
  assert (A : (n < tripCount lo hi step)%nat) by (apply tripCount_spec; assumption).
  assert (B : ~ (S n < tripCount lo hi step)%nat).
  { intros C. apply tripCount_spec in C. lra. }
  lia.
Qed.

Lemma forLoop_up (body : R -> Lines -> run Lines) (lo hi : R) (acc : Lines) :
  forLoop (tripCount lo hi step) (fun v => leR v hi) (fun v => v + step) body lo acc
  = foldRun body (ladder lo step (tripCount lo hi step)) acc.
Proof.
  apply forLoop_ladder; [reflexivity|].
  intros k. rewrite (tripCount_spec lo hi k).
  unfold leR. destruct (Rle_dec _ _); split; intros; try discriminate; auto; tauto.
Qed.

Lemma forLoop_down (body : R -> Lines -> run Lines) (lo hi : R) (acc : Lines) :
  forLoop (tripCount lo hi step) (fun v => geR v lo) (fun v => v - step) body hi acc
  = foldRun body (ladder hi (- step) (tripCount lo hi step)) acc.
Proof.
  apply forLoop_ladder; [intros v; ring|].
  intros k. rewrite (tripCount_spec lo hi k).
  unfold geR. destruct (Rge_dec _ _); split; intros; try discriminate; try reflexivity; lra.
Qed.

End PositiveStep.

(** ** The four branches of the generation *)

Lemma eqR_true (a b : R) : a = b -> eqR a b = true.
Proof. intros ->. unfold eqR. destruct (Req_dec_T b b); [reflexivity | contradiction]. Qed.

Lemma eqR_false (a b : R) : a <> b -> eqR a b = false.
Proof. intros H. unfold eqR. destruct (Req_dec_T a b); [contradiction | reflexivity]. Qed.

Section Generation.
Variables bottomLeft topRight : Point_2.
Variables angleDegrees step : R.

Lemma generate_invalid_step :
  step <= 0 ->
  generateHatchLines bottomLeft topRight angleDegrees step
  = Done (mkExit 1 stepError []).
Proof.
  intros H. unfold generateHatchLines.
  destruct (Rle_dec step 0); [reflexivity | contradiction].
Qed.

Hypothesis step_positive : 0 < step.

Lemma generate_angle_0 :
  normalizeAngle angleDegrees = 0 \/ normalizeAngle angleDegrees = 360 ->
  generateHatchLines bottomLeft topRight angleDegrees step
  = Done (mkExit 0 EmptyString
            (map (horizontal bottomLeft topRight)
               (ladder (Point_2_y bottomLeft) step
                  (tripCount (Point_2_y bottomLeft) (Point_2_y topRight) step)))).
Proof.
  intros Ha. unfold generateHatchLines.
  destruct (Rle_dec step 0); [lra|].
  assert (E : eqR (normalizeAngle angleDegrees) 0
              || eqR (normalizeAngle angleDegrees) 360 = true).
  { destruct Ha as [-> | ->].
    - rewrite eqR_true by reflexivity. reflexivity.
    - rewrite (eqR_true 360 360) by reflexivity. apply orb_true_r. }
  rewrite E, forLoop_up by exact step_positive.
  rewrite (foldRun_push (horizontal bottomLeft topRight)). reflexivity.
Qed.

Lemma generate_angle_180 :
  normalizeAngle angleDegrees = 180 ->
  generateHatchLines bottomLeft topRight angleDegrees step
  = Done (mkExit 0 EmptyString
            (map (horizontal bottomLeft topRight)
               (ladder (Point_2_y topRight) (- step)
                  (tripCount (Point_2_y bottomLeft) (Point_2_y topRight) step)))).
Proof.
  intros Ha. unfold generateHatchLines.
  destruct (Rle_dec step 0); [lra|].
  rewrite Ha.
  rewrite (eqR_false 180 0), (eqR_false 180 360), (eqR_true 180 180) by lra.
  cbn [orb]. rewrite forLoop_down by exact step_positive.
  rewrite (foldRun_push (horizontal bottomLeft topRight)). reflexivity.
Qed.

Lemma generate_general :
  eqR (normalizeAngle angleDegrees) 0 || eqR (normalizeAngle angleDegrees) 360 = false ->
  eqR (normalizeAngle angleDegrees) 180 || eqR (normalizeAngle angleDegrees) (-180) = false ->
  eqR (normalizeAngle angleDegrees) 90 || eqR (normalizeAngle angleDegrees) (-90)
    || eqR (normalizeAngle angleDegrees) 270 || eqR (normalizeAngle angleDegrees) (-270) = false ->
  let width := Point_2_x topRight - Point_2_x bottomLeft in
  let height := Point_2_y topRight - Point_2_y bottomLeft in
  let diagonal := sqrt (width * width + height * height) in
  let center := mkPoint_2 ((Point_2_x bottomLeft + Point_2_x topRight) / 2)
                          ((Point_2_y bottomLeft + Point_2_y topRight) / 2) in
  generateHatchLines bottomLeft topRight angleDegrees step
  = let* ls := foldRun
                 (keepClipped bottomLeft topRight center
                    (degreesToRadians (normalizeAngle angleDegrees)) diagonal)
                 (ladder (- diagonal / 2) step
                    (tripCount (- diagonal / 2) (diagonal / 2) step)) []
    in Done (mkExit 0 EmptyString ls).
Proof.
  intros E1 E2 E3. cbv zeta. unfold generateHatchLines.
  destruct (Rle_dec step 0); [lra|].
  rewrite E1, E2, E3, forLoop_up by exact step_positive. reflexivity.
Qed.

End Generation.

(** ** The generated pattern *)

(** C7.  For every [step <= 0] the program stops before any line is
    generated: it writes the error message, exits with code 1, and the
    vector of lines is empty. *)
Theorem nonpositive_step_is_an_error
    (bottomLeft topRight : Point_2) (angleDegrees step : R) :
  step <= 0 ->
  exists out : Exit,
    generateHatchLines bottomLeft topRight angleDegrees step = Done out /\
    exitCode out = 1%Z /\ errorText out = stepError /\ hatchLines out = [].
Proof.
  intros H. rewrite generate_invalid_step by exact H.
  eexists. split; [reflexivity|]. repeat split.
Qed.

Lemma nonpositive_step_is_an_error_witness :
  (exists out : Exit,
     main 45 0 = Done out /\
     exitCode out = 1%Z /\ errorText out = stepError /\ hatchLines out = []) /\
  (exists out : Exit,
     main 45 (-1) = Done out /\
     exitCode out = 1%Z /\ errorText out = stepError /\ hatchLines out = []).
Proof.
  split.
  - apply (nonpositive_step_is_an_error (mkPoint_2 0 0) (mkPoint_2 20 10) 45 0). lra.
  - apply (nonpositive_step_is_an_error (mkPoint_2 0 0) (mkPoint_2 20 10) 45 (-1)). lra.
Defined.

(** C4, as stated, fails: for the rectangle (0,0)-(20,10) and step 3 the
    angle 0 gives the lines at y = 0, 3, 6, 9 and the angle 180 the lines at
    y = 10, 7, 4, 1, which are neither the reverse nor the same set. *)
Lemma angle_180_is_not_angle_0_reversed :
  exists lines0 lines180 : Lines,
    main 0 3 = Done (mkExit 0 EmptyString lines0) /\
    main 180 3 = Done (mkExit 0 EmptyString lines180) /\
    lines0 = [ mkLine_2 (mkPoint_2 0 0) (mkPoint_2 20 0);
               mkLine_2 (mkPoint_2 0 3) (mkPoint_2 20 3);
               mkLine_2 (mkPoint_2 0 6) (mkPoint_2 20 6);
               mkLine_2 (mkPoint_2 0 9) (mkPoint_2 20 9) ] /\
    lines180 = [ mkLine_2 (mkPoint_2 0 10) (mkPoint_2 20 10);
                 mkLine_2 (mkPoint_2 0 7) (mkPoint_2 20 7);
                 mkLine_2 (mkPoint_2 0 4) (mkPoint_2 20 4);
                 mkLine_2 (mkPoint_2 0 1) (mkPoint_2 20 1) ] /\
    lines180 <> rev lines0 /\
    ~ (forall line : Line_2, In line lines180 <-> In line lines0).
Proof.
  do 2 eexists. unfold main.
  split; [|split; [|split; [reflexivity|split; [reflexivity|split]]]].
  - rewrite generate_angle_0; [| lra | left; apply normalizeAngle_small; lra].
    cbn [Point_2_x Point_2_y].
    rewrite (tripCount_eq 3 ltac:(lra) 0 10 3) by (cbn [INR]; lra).
    unfold ladder, horizontal. cbn [seq map INR Point_2_x Point_2_y].
    repeat (f_equal; try lra).
  - rewrite generate_angle_180; [| lra | apply normalizeAngle_small; lra].
    cbn [Point_2_x Point_2_y].
    rewrite (tripCount_eq 3 ltac:(lra) 0 10 3) by (cbn [INR]; lra).
    unfold ladder, horizontal. cbn [seq map INR Point_2_x Point_2_y].
    repeat (f_equal; try lra).
  - cbn [rev app]. intros [= H]. lra.
  - intros H.
    destruct (proj1 (H (mkLine_2 (mkPoint_2 0 10) (mkPoint_2 20 10))))
      as [E|[E|[E|[E|[]]]]]; [left; reflexivity | | | | ];
      injection E as E; lra.
Qed.

(** ** The angles 45 and 225 *)

Lemma sqrt2_facts : sqrt 2 * sqrt 2 = 2 /\ 1 < sqrt 2 < 3 / 2.
Proof.
  assert (E : sqrt 2 * sqrt 2 = 2) by (apply sqrt_sqrt; lra).
  assert (P : 0 <= sqrt 2) by apply sqrt_pos.
  split; [exact E | split; nra].
Qed.

(** The diagonal of the square (0,0)-(2,2). *)
Lemma sqrt8 : sqrt ((2 - 0) * (2 - 0) + (2 - 0) * (2 - 0)) = 2 * sqrt 2.
Proof.
  destruct sqrt2_facts as [E [L U]].
  apply sqrt_lem_1; nra.
Qed.

Lemma radians_45 : degreesToRadians 45 = PI / 4.
Proof. unfold degreesToRadians. field. Qed.

Lemma radians_225 : degreesToRadians 225 = PI / 4 + PI.
Proof. unfold degreesToRadians. field. Qed.

(** On the square (0,0)-(2,2) with step 3 there is one candidate, at
    offset [- sqrt 2]: for the angle 45 it runs from (1,-1) to (3,1) and
    touches the square in the corner (2,0). *)
Lemma angle_45_on_square :
  generateHatchLines (mkPoint_2 0 0) (mkPoint_2 2 2) 45 3
  = Done (mkExit 0 EmptyString [mkLine_2 (mkPoint_2 2 0) (mkPoint_2 2 0)]).
Proof.
  destruct sqrt2_facts as [E [L U]].
  rewrite generate_general;
    [| lra | rewrite normalizeAngle_small by lra; unfold eqR; rdec; reflexivity ..].
  rewrite normalizeAngle_small by lra.
  cbn [Point_2_x Point_2_y]. rewrite sqrt8, radians_45.
  rewrite (tripCount_eq 3 ltac:(lra) _ _ 0) by (cbn [INR]; lra).
  unfold ladder. cbn [seq map foldRun INR].
  unfold keepClipped, candidate. rewrite cos_PI4, sin_PI4.
  cbn [Point_2_x Point_2_y].
  set (r := sqrt 2) in *.
  replace ((0 + 2) / 2 + - (1 / r) * (- (2 * r) / 2 + 0 * 3) - 1 / r * (2 * r) / 2)
    with 1 by (field; lra).
  replace ((0 + 2) / 2 + 1 / r * (- (2 * r) / 2 + 0 * 3) - 1 / r * (2 * r) / 2)
    with (-1) by (field; lra).
  replace ((0 + 2) / 2 + - (1 / r) * (- (2 * r) / 2 + 0 * 3) + 1 / r * (2 * r) / 2)
    with 3 by (field; lra).
  replace ((0 + 2) / 2 + 1 / r * (- (2 * r) / 2 + 0 * 3) + 1 / r * (2 * r) / 2)
    with 1 by (field; lra).
  clip_eval. unfold push_back. cbn [app].
  repeat (f_equal; try lra).
Qed.

(** For the angle 225 the candidate runs from (1,3) to (-1,1) and touches
    the square in the opposite corner (0,2). *)
Lemma angle_225_on_square :
  generateHatchLines (mkPoint_2 0 0) (mkPoint_2 2 2) 225 3
  = Done (mkExit 0 EmptyString [mkLine_2 (mkPoint_2 0 2) (mkPoint_2 0 2)]).
Proof.
  destruct sqrt2_facts as [E [L U]].
  rewrite generate_general;
    [| lra | rewrite normalizeAngle_small by lra; unfold eqR; rdec; reflexivity ..].
  rewrite normalizeAngle_small by lra.
  cbn [Point_2_x Point_2_y]. rewrite sqrt8, radians_225.
  rewrite (tripCount_eq 3 ltac:(lra) _ _ 0) by (cbn [INR]; lra).
  unfold ladder. cbn [seq map foldRun INR].
  unfold keepClipped, candidate. rewrite neg_cos, neg_sin, cos_PI4, sin_PI4.
  cbn [Point_2_x Point_2_y].
  set (r := sqrt 2) in *.
  replace ((0 + 2) / 2 + - - (1 / r) * (- (2 * r) / 2 + 0 * 3) - - (1 / r) * (2 * r) / 2)
    with 1 by (field; lra).
  replace ((0 + 2) / 2 + - (1 / r) * (- (2 * r) / 2 + 0 * 3) - - (1 / r) * (2 * r) / 2)
    with 3 by (field; lra).
  replace ((0 + 2) / 2 + - - (1 / r) * (- (2 * r) / 2 + 0 * 3) + - (1 / r) * (2 * r) / 2)
    with (-1) by (field; lra).
  replace ((0 + 2) / 2 + - (1 / r) * (- (2 * r) / 2 + 0 * 3) + - (1 / r) * (2 * r) / 2)
    with 1 by (field; lra).
  clip_eval. unfold push_back. cbn [app].
  repeat (f_equal; try lra).
Qed.

(** C5, as stated, fails: for the square (0,0)-(2,2) and step 3 the angle
    45 gives the single line (2,0)-(2,0) and the angle 225 the single line
    (0,2)-(0,2). *)
Lemma angle_45_and_225_differ_on_square :
  generateHatchLines (mkPoint_2 0 0) (mkPoint_2 2 2) 45 3
  = Done (mkExit 0 EmptyString [mkLine_2 (mkPoint_2 2 0) (mkPoint_2 2 0)]) /\
  generateHatchLines (mkPoint_2 0 0) (mkPoint_2 2 2) 225 3
  = Done (mkExit 0 EmptyString [mkLine_2 (mkPoint_2 0 2) (mkPoint_2 0 2)]) /\
  generateHatchLines (mkPoint_2 0 0) (mkPoint_2 2 2) 45 3
  <> generateHatchLines (mkPoint_2 0 0) (mkPoint_2 2 2) 225 3.
Proof.
  split; [exact angle_45_on_square|]. split; [exact angle_225_on_square|].
  rewrite angle_45_on_square, angle_225_on_square.
  intros [= H]. lra.
Qed.

(** * Further properties of the program *)

(** ** Outcodes *)

(** X1. The outcode of a point never carries LEFT together with RIGHT nor
    BOTTOM together with TOP.  LEFT and BOTTOM are set exactly when the
    point is below the lower bound; RIGHT and TOP exactly when it is not
    below the lower bound and above the upper one.  The code lies between
    0 and 10. *)
Theorem computeOutCode_bits (x y : R) (bottomLeft topRight : Point_2) :
  let code := computeOutCode x y bottomLeft topRight in
  (truthy (Z.land code LEFT) = true <-> x < Point_2_x bottomLeft) /\
  (truthy (Z.land code RIGHT) = true <->
     Point_2_x bottomLeft <= x /\ Point_2_x topRight < x) /\
  (truthy (Z.land code BOTTOM) = true <-> y < Point_2_y bottomLeft) /\
  (truthy (Z.land code TOP) = true <->
     Point_2_y bottomLeft <= y /\ Point_2_y topRight < y) /\
  truthy (Z.land code LEFT) && truthy (Z.land code RIGHT) = false /\
  truthy (Z.land code BOTTOM) && truthy (Z.land code TOP) = false /\
  (0 <= code <= 10)%Z.
Proof.
  cbv zeta.
  destruct (computeOutCode_view x y bottomLeft topRight) as (h & v & -> & Hh & Hv).
  destruct Hh, Hv; zfold;
    repeat split; intros; try discriminate; try lra; try lia; try reflexivity;
    try (vm_compute; discriminate).
Qed.

(** ** The segment that clipLine returns *)

(** X2. A line whose two endpoints are strictly beyond the same edge of a
    valid rectangle is rejected in the first pass of the loop: clipLine
    returns false and leaves the line as it was, and one pass is enough for
    it. *)
Theorem clipLine_rejects_beyond_one_edge (line : Line_2) (bottomLeft topRight : Point_2) :
  valid bottomLeft topRight ->
  beyondOneEdge line bottomLeft topRight ->
  clipLineFuel 1 line bottomLeft topRight = Done (false, line) /\
  clipLine line bottomLeft topRight = Done (false, line).
Proof.
  intros [Vx Vy] H.
  destruct line as [[p q] [p' q']]; unfold beyondOneEdge in H; cbn in H.
  assert (E : clipBody (clipInit (mkLine_2 (mkPoint_2 p q) (mkPoint_2 p' q'))
                          bottomLeft topRight) bottomLeft topRight
              = Done (Break false)).
  { unfold clipInit, clipBody; cbn [Line_2_start Line_2_end Point_2_x Point_2_y
                                     x0 y0 x1 y1 outcode0 outcode1].
    destruct (computeOutCode_view p q bottomLeft topRight) as (h0 & v0 & -> & Hh0 & Hv0).
    destruct (computeOutCode_view p' q' bottomLeft topRight) as (h1 & v1 & -> & Hh1 & Hv1).
    destruct Hh0, Hv0, Hh1, Hv1; zfold; first [reflexivity | exfalso; lra]. }
  unfold clipLine, clipLineFuel, clipPasses; cbn [clipLoop].
  rewrite E; cbn [bind]. split; reflexivity.
Qed.

Lemma clipLine_rejects_beyond_one_edge_witness :
  clipLineFuel 1 (mkLine_2 (mkPoint_2 25 1) (mkPoint_2 30 40))
    (mkPoint_2 0 0) (mkPoint_2 20 10)
    = Done (false, mkLine_2 (mkPoint_2 25 1) (mkPoint_2 30 40)) /\
  clipLine (mkLine_2 (mkPoint_2 25 1) (mkPoint_2 30 40))
    (mkPoint_2 0 0) (mkPoint_2 20 10)
    = Done (false, mkLine_2 (mkPoint_2 25 1) (mkPoint_2 30 40)).
Proof.
  apply clipLine_rejects_beyond_one_edge.
  - unfold valid; cbn; lra.
  - unfold beyondOneEdge; cbn; right; left; lra.
Defined.

(** ** The command line *)

Lemma parseArgs_skip (stod : string -> option R) (word : string) (rest : list string)
    (angleDegrees step : R) :
  word <> "--angle"%string -> word <> "--step"%string ->
  parseArgs stod (word :: rest) angleDegrees step = parseArgs stod rest angleDegrees step.
Proof.
  intros Ha Hs. destruct rest as [|value rest']; [reflexivity|].
  cbn [parseArgs].
  apply String.eqb_neq in Ha. apply String.eqb_neq in Hs.
  rewrite Ha, Hs. reflexivity.
Qed.

(** X18. The command line is read from left to right as options with their
    values: each --angle or --step followed by a word overwrites the angle
    or the step with the number read from that word (whatever the word is,
    another flag included), every other word is skipped, and a last word
    with nothing after it is ignored even when it is a flag. *)
Theorem parseArgs_left_to_right (stod : string -> option R) (ws : list Word)
    (angleDegrees step : R) :
  Forall plainWord ws ->
  parseArgs stod (flat_map words ws) angleDegrees step
    = applyWords stod ws angleDegrees step /\
  forall lastWord,
    parseArgs stod (flat_map words ws ++ [lastWord]) angleDegrees step
    = applyWords stod ws angleDegrees step.
Proof.
  intros H. revert angleDegrees step.
  induction H as [|w ws Hw Hws IH]; intros angleDegrees step.
  - split; reflexivity.
  - destruct w as [value|value|word]; cbn [flat_map words applyWords app].
    + cbn [parseArgs String.eqb Ascii.eqb Bool.eqb].
      destruct (stod value) as [v|]; [|split; reflexivity].
      split; [apply IH | intros lastWord; apply IH].
    + cbn [parseArgs String.eqb Ascii.eqb Bool.eqb].
      destruct (stod value) as [v|]; [|split; reflexivity].
      split; [apply IH | intros lastWord; apply IH].
    + destruct Hw as [Ha Hs]. split.
      * rewrite parseArgs_skip by assumption. apply IH.
      * intros lastWord. rewrite parseArgs_skip by assumption. apply IH.
Qed.

Lemma parseArgs_left_to_right_witness :
  parseArgs (fun _ => Some 30)
    (flat_map words [OtherWord "-v"; AngleOption "30"; StepOption "--angle"]) 45 1
    = applyWords (fun _ => Some 30)
        [OtherWord "-v"; AngleOption "30"; StepOption "--angle"] 45 1 /\
  forall lastWord,
    parseArgs (fun _ => Some 30)
      (flat_map words [OtherWord "-v"; AngleOption "30"; StepOption "--angle"]
       ++ [lastWord]) 45 1
    = applyWords (fun _ => Some 30)
        [OtherWord "-v"; AngleOption "30"; StepOption "--angle"] 45 1.
Proof.
  apply parseArgs_left_to_right.
  repeat constructor; discriminate.
Defined.

(** ** The log and the SVG file *)

Lemma contourElement_defined (rect : Contour) (i : nat) :
  (i < List.length rect)%nat ->
  exists p1 p2,
    nth_error rect i = Some p1 /\
    nth_error rect ((i + 1) mod List.length rect) = Some p2 /\
    contourElement rect i
    = Some (mkSvgLine (Point_2_x p1 * scale) (Point_2_y p1 * scale)
                      (Point_2_x p2 * scale) (Point_2_y p2 * scale) "red" "1").
Proof.
  intros Hi.
  assert (Hj : ((i + 1) mod List.length rect < List.length rect)%nat)
    by (apply Nat.mod_upper_bound; lia).
  destruct (nth_error rect i) as [p1|] eqn:E1;
    [|apply nth_error_None in E1; lia].
  destruct (nth_error rect ((i + 1) mod List.length rect)) as [p2|] eqn:E2;
    [|apply nth_error_None in E2; lia].
  exists p1, p2. split; [reflexivity|]. split; [reflexivity|].
  unfold contourElement. rewrite E1, E2. reflexivity.
Qed.

Lemma contourLoop_defined (rect : Contour) (indices : list nat) :
  Forall (fun i => (i < List.length rect)%nat) indices ->
  exists es,
    contourLoop rect indices = Some es /\
    List.length es = List.length indices /\
    forall k i, nth_error indices k = Some i ->
      nth_error es k = contourElement rect i.
Proof.
  induction 1 as [|i indices Hi _ (es & E & Hl & Hn)].
  - exists []. split; [reflexivity|]. split; [reflexivity|].
    intros [|k] i H; discriminate.
  - destruct (contourElement_defined rect i Hi) as (p1 & p2 & _ & _ & Ee).
    cbn [contourLoop]. rewrite Ee, E. eexists. split; [reflexivity|].
    split; [cbn [List.length]; rewrite Hl; reflexivity|].
    intros [|k] j H; cbn [nth_error] in *.
    + injection H as <-. symmetry; exact Ee.
    + apply Hn; exact H.
Qed.

Lemma contourElements_spec (rect : Contour) :
  exists edges,
    contourElements rect = Some edges /\
    List.length edges = List.length rect /\
    forall i, (i < List.length rect)%nat ->
      nth_error edges i = contourElement rect i.
Proof.
  unfold contourElements.
  destruct (contourLoop_defined rect (seq 0 (List.length rect))) as (es & E & Hl & Hn).
  { apply Forall_forall. intros i Hi. apply in_seq in Hi. lia. }
  exists es. split; [exact E|]. rewrite length_seq in Hl. split; [exact Hl|].
  intros i Hi. apply Hn.
  rewrite nth_error_nth' with (d := 0%nat) by (rewrite length_seq; exact Hi).
  rewrite seq_nth by exact Hi. reflexivity.
Qed.

Lemma logLoop_nth (hatchLines : Lines) :
  forall (lineNumber : Z) (k : nat),
    nth_error (logLoop lineNumber hatchLines) k
    = option_map (fun line => ((lineNumber + Z.of_nat k)%Z, line)) (nth_error hatchLines k).
Proof.
  induction hatchLines as [|line rest IH]; intros lineNumber k.
  - destruct k; reflexivity.
  - destruct k as [|k]; cbn [logLoop nth_error option_map].
    + rewrite Z.add_0_r. reflexivity.
    + rewrite IH. replace (lineNumber + 1 + Z.of_nat k)%Z
        with (lineNumber + Z.of_nat (S k))%Z by lia.
      reflexivity.
Qed.

Lemma logLoop_length (hatchLines : Lines) (lineNumber : Z) :
  List.length (logLoop lineNumber hatchLines) = List.length hatchLines.
Proof.
  revert lineNumber.
  induction hatchLines as [|l ls IH]; intros z; cbn [logLoop List.length];
    [reflexivity | rewrite IH; reflexivity].
Qed.

(** X19. The loop that draws the rectangle never reads the contour out of
    range and draws it closed, whatever the contour: one red edge per
    point, edge i from point i, and every edge ends where the edge after it
    (the first one after the last) starts.  An empty contour gives no
    edge. *)
Theorem contour_is_drawn_closed (rect : Contour) :
  exists edges,
    contourElements rect = Some edges /\
    List.length edges = List.length rect /\
    forall i, (i < List.length rect)%nat ->
      exists p e e',
        nth_error rect i = Some p /\
        nth_error edges i = Some e /\
        nth_error edges ((i + 1) mod List.length rect) = Some e' /\
        svg_x1 e = Point_2_x p * scale /\ svg_y1 e = Point_2_y p * scale /\
        svg_x2 e = svg_x1 e' /\ svg_y2 e = svg_y1 e' /\
        svg_stroke e = "red"%string.
Proof.
  destruct (contourElements_spec rect) as (edges & E & Hl & Hn).
  exists edges. split; [exact E|]. split; [exact Hl|].
  intros i Hi.
  assert (Hj : ((i + 1) mod List.length rect < List.length rect)%nat)
    by (apply Nat.mod_upper_bound; lia).
  destruct (contourElement_defined rect i Hi) as (p1 & p2 & E1 & E2 & Ee).
  destruct (contourElement_defined rect _ Hj) as (q1 & q2 & F1 & _ & Fe).
  rewrite E2 in F1. injection F1 as <-.
  eexists p1, _, _. split; [exact E1|].
  split; [rewrite Hn by exact Hi; exact Ee|].
  split; [rewrite Hn by exact Hj; exact Fe|].
  cbn [svg_x1 svg_y1 svg_x2 svg_y2 svg_stroke]. repeat split; reflexivity.
Qed.

(** X20. The log and the SVG file list the hatch lines in the same order,
    and the file ends with the contour.  For fewer than 2^31 - 1 lines (the
    line counter is an int) and any contour: the log has one entry per
    line, numbered from 1 within the range of an int; entry number k + 1
    carries the line that gives element k of the file; the elements of the
    file are those of the hatch lines followed by exactly the edges of the
    contour, edge i at position (number of lines) + i. *)
Theorem log_and_svg_agree (hatchLines : Lines) (rect : Contour) :
  (Z.of_nat (List.length hatchLines) < 2 ^ 31 - 1)%Z ->
  exists elements edges,
    svgElements hatchLines rect = Some elements /\
    contourElements rect = Some edges /\
    elements = map hatchElement hatchLines ++ edges /\
    List.length (logEntries hatchLines) = List.length hatchLines /\
    List.length edges = List.length rect /\
    (forall i, (i < List.length rect)%nat ->
       nth_error elements (List.length hatchLines + i) = contourElement rect i /\
       contourElement rect i <> None) /\
    forall k,
      (forall line,
         nth_error hatchLines k = Some line <->
         nth_error (logEntries hatchLines) k = Some (Z.of_nat k + 1, line)%Z /\
         nth_error elements k = Some (hatchElement line) /\
         (k < List.length hatchLines)%nat) /\
      (forall entryNumber line,
         nth_error (logEntries hatchLines) k = Some (entryNumber, line) ->
         entryNumber = (Z.of_nat k + 1)%Z /\ (1 <= entryNumber < 2 ^ 31)%Z).
Proof.
  intros Hsize.
  destruct (contourElements_spec rect) as (edges & E & Hl & He).
  unfold svgElements. rewrite E. exists (map hatchElement hatchLines ++ edges), edges.
  split; [reflexivity|]. split; [reflexivity|]. split; [reflexivity|].
  split; [apply logLoop_length|]. split; [exact Hl|]. split.
  - intros i Hi.
    rewrite nth_error_app2 by (rewrite length_map; lia).
    rewrite length_map. replace (List.length hatchLines + i - List.length hatchLines)%nat
      with i by lia.
    split; [apply He; exact Hi|].
    destruct (contourElement_defined rect i Hi) as (p1 & p2 & _ & _ & ->). discriminate.
  - intros k. unfold logEntries. rewrite logLoop_nth. split.
    + intros line. split.
      * intros H. rewrite H. cbn [option_map].
        assert (Hk : (k < List.length hatchLines)%nat)
          by (apply nth_error_Some; rewrite H; discriminate).
        split; [do 2 f_equal; lia|]. split; [|exact Hk].
        rewrite nth_error_app1 by (rewrite length_map; exact Hk).
        rewrite nth_error_map, H. reflexivity.
      * intros (H & _ & _).
        destruct (nth_error hatchLines k) as [l|]; [|discriminate].
        cbn [option_map] in H. injection H as _ ->. reflexivity.
    + intros entryNumber line H.
      destruct (nth_error hatchLines k) as [l|] eqn:El; [|discriminate].
      assert (Hk : (k < List.length hatchLines)%nat)
        by (apply nth_error_Some; rewrite El; discriminate).
      cbn [option_map] in H.
      assert (En : entryNumber = (1 + Z.of_nat k)%Z) by congruence.
      change (2 ^ 31)%Z with 2147483648%Z in *. lia.
Qed.

Lemma log_and_svg_agree_witness :
  exists elements edges,
    svgElements [mkLine_2 (mkPoint_2 0 0) (mkPoint_2 20 0);
                 mkLine_2 (mkPoint_2 0 1) (mkPoint_2 20 1);
                 mkLine_2 (mkPoint_2 0 2) (mkPoint_2 20 2)] exampleContour
    = Some elements /\
    contourElements exampleContour = Some edges /\
    elements
    = [hatchElement (mkLine_2 (mkPoint_2 0 0) (mkPoint_2 20 0));
       hatchElement (mkLine_2 (mkPoint_2 0 1) (mkPoint_2 20 1));
       hatchElement (mkLine_2 (mkPoint_2 0 2) (mkPoint_2 20 2))] ++ edges /\
    logEntries [mkLine_2 (mkPoint_2 0 0) (mkPoint_2 20 0);
                mkLine_2 (mkPoint_2 0 1) (mkPoint_2 20 1);
                mkLine_2 (mkPoint_2 0 2) (mkPoint_2 20 2)]
    = [(1%Z, mkLine_2 (mkPoint_2 0 0) (mkPoint_2 20 0));
       (2%Z, mkLine_2 (mkPoint_2 0 1) (mkPoint_2 20 1));
       (3%Z, mkLine_2 (mkPoint_2 0 2) (mkPoint_2 20 2))] /\
    List.length edges = 4%nat.
Proof.
  destruct (log_and_svg_agree
              [mkLine_2 (mkPoint_2 0 0) (mkPoint_2 20 0);
               mkLine_2 (mkPoint_2 0 1) (mkPoint_2 20 1);
               mkLine_2 (mkPoint_2 0 2) (mkPoint_2 20 2)] exampleContour)
    as (elements & edges & E1 & E2 & E3 & _ & E5 & _).
  - cbn [List.length Z.of_nat]. change (2 ^ 31)%Z with 2147483648%Z. lia.
  - exists elements, edges. split; [exact E1|]. split; [exact E2|].
    split; [exact E3|]. split; [reflexivity|exact E5].
Defined.

(** * Properties of the program on binary64 values *)

(** ** Binary64 arithmetic: order and rounding

    The operations of the kernel's floats are specified by the functions of
    [SpecFloat].  The lemmas of this part relate those functions to the
    integer [value] of a double: the comparisons compare values, and a
    rounded sum lies on the same side of every double as the exact sum. *)

Section Binary64Arithmetic.
Local Open Scope Z_scope.

Lemma digits2_size (m : positive) : digits2_pos m = Pos.size m.
Proof. induction m as [m IH|m IH|]; cbn; rewrite ?IH; reflexivity. Qed.

Lemma digits2_bounds (m : positive) :
  2 ^ (Z.pos (digits2_pos m) - 1) <= Z.pos m < 2 ^ Z.pos (digits2_pos m).
Proof.
  rewrite digits2_size. split.
  - pose proof (Pos.size_le m) as H.
    assert (H' : 2 ^ Z.pos (Pos.size m) <= 2 * Z.pos m).
    { change (2 * Z.pos m) with (Z.pos m~0). rewrite <- Pos2Z.inj_pow.
      apply Pos2Z.pos_le_pos. exact H. }
    replace (Z.pos (Pos.size m)) with (Z.pos (Pos.size m) - 1 + 1) in H' by lia.
    rewrite Z.pow_add_r in H' by lia. lia.
  - pose proof (Pos.size_gt m) as H. rewrite <- Pos2Z.inj_pow.
    apply Pos2Z.pos_lt_pos. exact H.
Qed.

Lemma pow2_pos (n : Z) : 0 <= n -> 0 < 2 ^ n.
Proof. intros; apply Z.pow_pos_nonneg; lia. Qed.

Lemma pow2_le (a b : Z) : 0 <= a <= b -> 2 ^ a <= 2 ^ b.
Proof. intros; apply Z.pow_le_mono_r; lia. Qed.

Lemma pow2_lt (a b : Z) : 0 <= a < b -> 2 ^ a < 2 ^ b.
Proof. intros; apply Z.pow_lt_mono_r; lia. Qed.

(** The shape of a valid finite double: at most 53 digits, exactly 53
    above the smallest exponent. *)
Lemma valid_finite (s : bool) (m : positive) (e : Z) :
  valid_binary (S754_finite s m e) = true ->
  -1074 <= e <= 971 /\ Z.pos (digits2_pos m) <= 53 /\
  (-1074 < e -> Z.pos (digits2_pos m) = 53).
Proof.
  unfold valid_binary, SpecFloat.valid_binary, SpecFloat.bounded,
    SpecFloat.canonical_mantissa, SpecFloat.fexp.
  intros H. apply andb_true_iff in H. destruct H as [H1 H2].
  apply Z.eqb_eq in H1. apply Z.leb_le in H2.
  change (SpecFloat.emin prec emax) with (-1074) in H1.
  change prec with 53 in *. change emax with 1024 in *. lia.
Qed.

Lemma magnitude_pos (m : positive) (e : Z) : - bias <= e -> 0 < magnitude m e.
Proof.
  intros H. unfold magnitude. apply Z.mul_pos_pos; [lia|]. apply pow2_pos. lia.
Qed.

Lemma magnitude_bounds (m : positive) (e : Z) :
  - bias <= e ->
  2 ^ (Z.pos (digits2_pos m) - 1 + (e + bias)) <= magnitude m e
  < 2 ^ (Z.pos (digits2_pos m) + (e + bias)).
Proof.
  intros H. unfold magnitude. pose proof (digits2_bounds m) as [Hl Hu].
  pose proof (pow2_pos (e + bias) ltac:(lia)) as Hp.
  assert (Hd : 1 <= Z.pos (digits2_pos m)) by lia.
  assert (Hb : 0 <= e + bias) by lia.
  set (eb := e + bias) in *.
  rewrite (Z.pow_add_r 2 (Z.pos (digits2_pos m) - 1) eb),
          (Z.pow_add_r 2 (Z.pos (digits2_pos m)) eb) by lia.
  split.
  - apply Z.mul_le_mono_nonneg_r; lia.
  - apply Z.mul_lt_mono_pos_r; lia.
Qed.

(** Every finite double is below [huge] in magnitude. *)
Lemma valid_magnitude (s : bool) (m : positive) (e : Z) :
  valid_binary (S754_finite s m e) = true ->
  0 < magnitude m e < huge.
Proof.
  intros V. destruct (valid_finite s m e V) as (He & Hd & _).
  split; [apply magnitude_pos; unfold bias; lia|].
  pose proof (magnitude_bounds m e ltac:(unfold bias; lia)) as [_ Hu].
  eapply Z.lt_le_trans; [exact Hu|]. unfold huge. apply pow2_le.
  change emax with 1024. unfold bias. lia.
Qed.

(** Among valid doubles the order of the exponents decides. *)
Lemma valid_exponent_order (s1 s2 : bool) (m1 m2 : positive) (e1 e2 : Z) :
  valid_binary (S754_finite s1 m1 e1) = true ->
  valid_binary (S754_finite s2 m2 e2) = true ->
  e1 < e2 -> magnitude m1 e1 < magnitude m2 e2.
Proof.
  intros V1 V2 H.
  destruct (valid_finite _ _ _ V1) as (He1 & Hd1 & _).
  destruct (valid_finite _ _ _ V2) as (He2 & _ & Hd2).
  specialize (Hd2 ltac:(lia)).
  pose proof (magnitude_bounds m1 e1 ltac:(unfold bias; lia)) as [_ Hu].
  pose proof (magnitude_bounds m2 e2 ltac:(unfold bias; lia)) as [Hl _].
  eapply Z.lt_le_trans; [exact Hu|]. eapply Z.le_trans; [|exact Hl].
  apply pow2_le. rewrite Hd2. unfold bias. lia.
Qed.

Lemma magnitude_same_exponent (m1 m2 : positive) (e : Z) :
  - bias <= e ->
  (magnitude m1 e ?= magnitude m2 e) = (m1 ?= m2)%positive.
Proof.
  intros H. unfold magnitude.
  rewrite <- Zmult_compare_compat_r by (apply Z.lt_gt, pow2_pos; lia). reflexivity.
Qed.

(** The comparison of doubles is the comparison of their values. *)
Lemma SFcompare_value (x y : spec_float) :
  valid_binary x = true -> valid_binary y = true ->
  isNumber x = true -> isNumber y = true ->
  SFcompare x y = Some (value x ?= value y).
Proof.
  intros Vx Vy Nx Ny.
  destruct x as [sx|sx| |sx mx ex]; try discriminate Nx;
  destruct y as [sy|sy| |sy my ey]; try discriminate Ny; clear Nx Ny.
  - reflexivity.
  - destruct sy; reflexivity.
  - pose proof (valid_magnitude _ _ _ Vy) as [Hy _].
    cbn [SFcompare value]. destruct sy; cbn [cond_Zopp]; f_equal; symmetry.
    + apply Z.compare_gt_iff. lia.
    + apply Z.compare_lt_iff. lia.
  - destruct sx; reflexivity.
  - destruct sx, sy; reflexivity.
  - pose proof (valid_magnitude _ _ _ Vy) as [Hy0 Hy].
    cbn [SFcompare value]. destruct sx, sy; cbn [cond_Zopp]; f_equal; symmetry;
      first [apply Z.compare_lt_iff; lia | apply Z.compare_gt_iff; lia].
  - pose proof (valid_magnitude _ _ _ Vx) as [Hx _].
    cbn [SFcompare value]. destruct sx; cbn [cond_Zopp]; f_equal; symmetry.
    + apply Z.compare_lt_iff. lia.
    + apply Z.compare_gt_iff. lia.
  - pose proof (valid_magnitude _ _ _ Vx) as [Hx0 Hx].
    cbn [SFcompare value]. destruct sx, sy; cbn [cond_Zopp]; f_equal; symmetry;
      first [apply Z.compare_lt_iff; lia | apply Z.compare_gt_iff; lia].
  - pose proof (valid_magnitude _ _ _ Vx) as [Hx0 Hx].
    pose proof (valid_magnitude _ _ _ Vy) as [Hy0 Hy].
    destruct (valid_finite _ _ _ Vx) as (Hex & _).
    destruct (valid_finite _ _ _ Vy) as (Hey & _).
    cbn [SFcompare value]. destruct sx, sy; cbn [cond_Zopp]; f_equal.
    + destruct (Z.compare_spec ex ey) as [E|E|E].
      * subst ey. change (Pos.compare_cont Eq mx my) with (Pos.compare mx my).
        rewrite Z.compare_opp, (magnitude_same_exponent my mx ex) by (unfold bias; lia).
        rewrite (Pos.compare_antisym mx my). reflexivity.
      * pose proof (valid_exponent_order _ _ _ _ _ _ Vx Vy E).
        symmetry. apply Z.compare_gt_iff. lia.
      * pose proof (valid_exponent_order _ _ _ _ _ _ Vy Vx E).
        symmetry. apply Z.compare_lt_iff. lia.
    + symmetry. apply Z.compare_lt_iff. lia.
    + symmetry. apply Z.compare_gt_iff. lia.
    + destruct (Z.compare_spec ex ey) as [E|E|E].
      * subst ey. change (Pos.compare_cont Eq mx my) with (Pos.compare mx my).
        rewrite (magnitude_same_exponent mx my ex) by (unfold bias; lia). reflexivity.
      * pose proof (valid_exponent_order _ _ _ _ _ _ Vx Vy E).
        symmetry. apply Z.compare_lt_iff. lia.
      * pose proof (valid_exponent_order _ _ _ _ _ _ Vy Vx E).
        symmetry. apply Z.compare_gt_iff. lia.
Qed.

(** ** Shifting a mantissa to the right *)

Lemma iter_pos_iter {A : Type} (f : A -> A) (p : positive) :
  forall x, SpecFloat.iter_pos f p x = Pos.iter f x p.
Proof.
  induction p as [p IH|p IH|]; intros x; cbn [SpecFloat.iter_pos Pos.iter].
  - rewrite !IH, !Pos.iter_swap. reflexivity.
  - rewrite !IH. reflexivity.
  - reflexivity.
Qed.

Lemma shr_1_m (mrs : shr_record) :
  0 <= shr_m mrs -> shr_m (shr_1 mrs) = shr_m mrs / 2 /\ 0 <= shr_m (shr_1 mrs).
Proof.
  destruct mrs as [m r s]. cbn [shr_m]. intros H.
  rewrite <- Z.div2_div.
  destruct m as [|[p|p|]|p]; cbn; lia.
Qed.

Lemma shr_iter_m (p : positive) (mrs : shr_record) :
  0 <= shr_m mrs ->
  shr_m (Pos.iter shr_1 mrs p) = shr_m mrs / 2 ^ Z.pos p /\
  0 <= shr_m (Pos.iter shr_1 mrs p).
Proof.
  intros H. induction p as [|p [IH IH0]] using Pos.peano_ind.
  - cbn [Pos.iter]. change (2 ^ 1) with 2. apply shr_1_m; exact H.
  - rewrite Pos.iter_succ. destruct (shr_1_m _ IH0) as [E E0].
    split; [|exact E0]. rewrite E, IH, Pos2Z.inj_succ.
    rewrite Z.pow_succ_r by lia. rewrite Z.div_div by (try apply pow2_pos; lia).
    f_equal. lia.
Qed.

Lemma round_nearest_even_bounds (m : Z) (l : location) :
  m <= round_nearest_even m l <= m + 1.
Proof.
  unfold round_nearest_even. destruct l as [|[| |]]; try destruct (Z.even m); lia.
Qed.

Lemma shift_mantissa (m d : positive) :
  Z.pos (Pos.iter xO m d) = Z.pos m * 2 ^ Z.pos d /\
  Z.pos (digits2_pos (Pos.iter xO m d)) = Z.pos (digits2_pos m) + Z.pos d.
Proof.
  induction d as [|d [IH1 IH2]] using Pos.peano_ind.
  - cbn [Pos.iter digits2_pos]. change (2 ^ 1) with 2. lia.
  - rewrite Pos.iter_succ. cbn [digits2_pos].
    rewrite Pos2Z.inj_xO, IH1, !Pos2Z.inj_succ, IH2, Z.pow_succ_r by lia. lia.
Qed.

(** The digits of a positive integer below 2^53. *)
Lemma digits_below (m : positive) (k : Z) :
  0 <= k -> Z.pos m < 2 ^ k -> Z.pos (digits2_pos m) <= k.
Proof.
  intros Hk H. pose proof (digits2_bounds m) as [Hl _].
  destruct (Z_le_gt_dec (Z.pos (digits2_pos m)) k) as [|G]; [assumption|].
  exfalso. assert (2 ^ k <= 2 ^ (Z.pos (digits2_pos m) - 1)) by (apply pow2_le; lia). lia.
Qed.

(** ** Rounding to a double *)

Lemma fexp_spec (x : Z) : fexp prec emax x = Z.max (x - 53) (-1074).
Proof. reflexivity. Qed.

Lemma final_stage (s : bool) (m1 E : Z) :
  0 <= m1 <= 2 ^ 53 -> -1074 <= E -> (-1074 < E -> 2 ^ 52 <= m1) ->
  rounded s m1 E
    (let '(mrs, e) := shr_fexp prec emax m1 E loc_Exact in
     match shr_m mrs with
     | Z0 => S754_zero s
     | Zpos m => if Z.leb e (emax - prec) then S754_finite s m e else S754_infinity s
     | Zneg _ => S754_nan
     end).
Proof.
  intros [H0 H1] HE Hn. unfold shr_fexp. rewrite fexp_spec. cbn [shr_record_of_loc].
  destruct m1 as [|p1|p1]; [| |lia].
  - cbn [Zdigits2]. assert (Hs : Z.max (0 + E - 53) (-1074) - E <= 0) by lia.
    unfold shr. destruct (Z.max (0 + E - 53) (-1074) - E) as [|p|p]; [| lia |];
      cbn [shr_m]; split; reflexivity.
  - cbn [Zdigits2].
    destruct (Z.eq_dec (Z.pos p1) (2 ^ 53)) as [Ep|Np].
    + assert (Ed : p1 = 9007199254740992%positive) by (apply Pos2Z.inj; exact Ep).
      subst p1. change (Z.pos (digits2_pos 9007199254740992)) with 54.
      replace (Z.max (54 + E - 53) (-1074) - E) with 1 by lia.
      unfold shr. cbn [SpecFloat.iter_pos shr_1 shr_m].
      destruct (Z.leb (E + 1) (emax - prec)) eqn:El.
      * split; [reflexivity|]. split; [unfold bias; lia|].
        unfold magnitude. replace (E + 1 + bias) with (1 + (E + bias)) by lia.
        rewrite Z.pow_add_r by (unfold bias; lia). change (2 ^ 1) with 2. lia.
      * split; [reflexivity|]. apply Z.leb_gt in El.
        change (emax - prec) with 971 in El. unfold huge. change emax with 1024.
        change (Z.pos 9007199254740992) with (2 ^ 53).
        rewrite <- Z.pow_add_r by (unfold bias; lia). apply pow2_le. unfold bias. lia.
    + assert (Hd : Z.pos (digits2_pos p1) <= 53) by (apply digits_below; lia).
      assert (Hs : Z.max (Z.pos (digits2_pos p1) + E - 53) (-1074) - E <= 0) by lia.
      unfold shr.
      destruct (Z.max (Z.pos (digits2_pos p1) + E - 53) (-1074) - E) as [|p|p]; [| lia |];
        cbn [shr_m].
      * destruct (Z.leb E (emax - prec)) eqn:El.
        -- split; [reflexivity|]. split; [unfold bias; lia|reflexivity].
        -- split; [reflexivity|]. apply Z.leb_gt in El.
           change (emax - prec) with 971 in El. unfold huge. change emax with 1024.
           specialize (Hn ltac:(lia)).
           eapply Z.le_trans; [|apply Z.mul_le_mono_nonneg_r; [|exact Hn]].
           ++ rewrite <- Z.pow_add_r by (unfold bias; lia). apply pow2_le. unfold bias. lia.
           ++ apply Z.lt_le_incl, pow2_pos. unfold bias. lia.
      * destruct (Z.leb E (emax - prec)) eqn:El.
        -- split; [reflexivity|]. split; [unfold bias; lia|reflexivity].
        -- split; [reflexivity|]. apply Z.leb_gt in El.
           change (emax - prec) with 971 in El. unfold huge. change emax with 1024.
           specialize (Hn ltac:(lia)).
           eapply Z.le_trans; [|apply Z.mul_le_mono_nonneg_r; [|exact Hn]].
           ++ rewrite <- Z.pow_add_r by (unfold bias; lia). apply pow2_le. unfold bias. lia.
           ++ apply Z.lt_le_incl, pow2_pos. unfold bias. lia.
Qed.

(** The first stage: the mantissa shifted to the exponent [E] of the
    result and rounded. *)
Lemma binary_round_aux_value (s : bool) (mz : positive) (ez : Z) :
  - bias <= ez ->
  let E := fexp prec emax (Z.pos (digits2_pos mz) + ez) in
  ez <= E ->
  exists m1,
    magnitude mz ez / 2 ^ (E + bias) <= m1 <= magnitude mz ez / 2 ^ (E + bias) + 1 /\
    rounded s m1 E (binary_round_aux prec emax s (Z.pos mz) ez loc_Exact).
Proof.
  intros Hz E HE.
  assert (EE : E = Z.max (Z.pos (digits2_pos mz) + ez - 53) (-1074)) by reflexivity.
  pose proof (magnitude_bounds mz ez Hz) as [Xl Xu].
  assert (Hb : 0 <= ez + bias) by lia.
  assert (HEb : 0 <= E + bias) by lia.
  pose proof (pow2_pos _ Hb) as Pz. pose proof (pow2_pos _ HEb) as PE.
  set (q := magnitude mz ez / 2 ^ (E + bias)).
  assert (Q0 : 0 <= q).
  { apply Z.div_pos; [|exact PE]. pose proof (magnitude_pos mz ez Hz). lia. }
  assert (Q1 : q < 2 ^ 53).
  { apply Z.div_lt_upper_bound; [exact PE|].
    eapply Z.lt_le_trans; [exact Xu|]. rewrite <- Z.pow_add_r by lia.
    apply pow2_le. lia. }
  assert (Q2 : -1074 < E -> 2 ^ 52 <= q).
  { intros H. apply Z.div_le_lower_bound; [exact PE|].
    eapply Z.le_trans; [|exact Xl]. rewrite <- Z.pow_add_r by lia.
    apply pow2_le. lia. }
  (* the first shift *)
  assert (S1 : exists l,
             shr_fexp prec emax (Z.pos mz) ez loc_Exact = (l, E) /\ shr_m l = q).
  { unfold shr_fexp. cbn [Zdigits2 shr_record_of_loc]. fold E. unfold shr.
    destruct (E - ez) as [|p|p] eqn:En; [| |lia].
    - eexists. split; [f_equal; lia|]. cbn [shr_m]. unfold q, magnitude.
      replace E with ez by lia. symmetry. apply Z.div_mul. lia.
    - eexists. split; [f_equal; lia|].
      rewrite iter_pos_iter.
      destruct (shr_iter_m p {| shr_m := Z.pos mz; shr_r := false; shr_s := false |}
                  ltac:(cbn; lia)) as [-> _].
      cbn [shr_m]. unfold q, magnitude.
      replace (E + bias) with (Z.pos p + (ez + bias)) by lia.
      rewrite (Z.pow_add_r 2 (Z.pos p) (ez + bias)) by lia.
      pose proof (pow2_pos (Z.pos p) ltac:(lia)).
      rewrite Z.div_mul_cancel_r by lia. reflexivity. }
  destruct S1 as (l & S1 & Sq).
  unfold binary_round_aux. rewrite S1.
  pose proof (round_nearest_even_bounds (shr_m l) (loc_of_shr_record l)) as Hr.
  rewrite Sq in Hr |- *.
  exists (round_nearest_even q (loc_of_shr_record l)).
  split; [exact Hr|].
  apply final_stage; lia.
Qed.

(** Rounding a positive integer [m] at the exponent [e]. *)
Lemma binary_round_value (s : bool) (m : positive) (e : Z) :
  - bias <= e ->
  let E := fexp prec emax (Z.pos (digits2_pos m) + e) in
  exists m1,
    magnitude m e / 2 ^ (E + bias) <= m1 <= magnitude m e / 2 ^ (E + bias) + 1 /\
    rounded s m1 E (binary_round prec emax s m e).
Proof.
  intros He E. unfold binary_round. fold E. unfold shl_align.
  assert (EE : E = Z.max (Z.pos (digits2_pos m) + e - 53) (-1074)) by reflexivity.
  destruct (E - e) as [|d|d] eqn:Ed.
  - apply (binary_round_aux_value s m e He). fold E. lia.
  - apply (binary_round_aux_value s m e He). fold E. lia.
  - destruct (shift_mantissa m d) as [Hm Hd].
    assert (HE : - bias <= E) by (unfold bias; lia).
    assert (Em : magnitude (Pos.iter xO m d) E = magnitude m e).
    { unfold magnitude. rewrite Hm.
      replace (e + bias) with (Z.pos d + (E + bias)) by lia.
      rewrite (Z.pow_add_r 2 (Z.pos d) (E + bias)) by lia. ring. }
    assert (EEz : fexp prec emax (Z.pos (digits2_pos (Pos.iter xO m d)) + E) = E).
    { rewrite Hd. replace (Z.pos (digits2_pos m) + Z.pos d + E)
        with (Z.pos (digits2_pos m) + e) by lia. reflexivity. }
    pose proof (binary_round_aux_value s (Pos.iter xO m d) E HE) as H.
    cbv zeta in H. rewrite EEz, Em in H. apply H. lia.
Qed.

(** ** The rounded value encloses every double on its side *)

Section Enclosure.
Variables (m mf : positive) (e ef : Z) (sf : bool).
Hypothesis exponent_bound : - bias <= e.
Hypothesis f_valid : valid_binary (S754_finite sf mf ef) = true.

Lemma enclose_below :
  magnitude mf ef <= magnitude m e ->
  magnitude mf ef
  <= magnitude m e / 2 ^ (fexp prec emax (Z.pos (digits2_pos m) + e) + bias)
     * 2 ^ (fexp prec emax (Z.pos (digits2_pos m) + e) + bias).
Proof.
  intros H. set (E := fexp prec emax (Z.pos (digits2_pos m) + e)).
  assert (EE : E = Z.max (Z.pos (digits2_pos m) + e - 53) (-1074)) by reflexivity.
  destruct (valid_finite _ _ _ f_valid) as (Hef & Hdf & _).
  assert (HEb : 0 <= E + bias) by (unfold bias; lia).
  pose proof (pow2_pos _ HEb) as PE.
  destruct (Z_le_gt_dec E ef) as [C|C].
  - assert (Ef : magnitude mf ef = Z.pos mf * 2 ^ (ef - E) * 2 ^ (E + bias)).
    { unfold magnitude. rewrite <- Z.mul_assoc, <- Z.pow_add_r by lia.
      do 2 f_equal. lia. }
    rewrite Ef in H |- *. apply Z.mul_le_mono_nonneg_r; [lia|].
    apply Z.div_le_lower_bound; [exact PE|]. lia.
  - pose proof (magnitude_bounds m e exponent_bound) as [Xl _].
    pose proof (magnitude_bounds mf ef ltac:(unfold bias; lia)) as [_ Fu].
    assert (Q : 2 ^ 52 <= magnitude m e / 2 ^ (E + bias)).
    { apply Z.div_le_lower_bound; [exact PE|].
      eapply Z.le_trans; [|exact Xl]. rewrite <- Z.pow_add_r by lia.
      apply pow2_le. lia. }
    apply Z.lt_le_incl. eapply Z.lt_le_trans; [exact Fu|].
    eapply Z.le_trans; [|apply Z.mul_le_mono_nonneg_r; [lia|exact Q]].
    rewrite <- Z.pow_add_r by lia. apply pow2_le. unfold bias in *. lia.
Qed.

Lemma enclose_above :
  magnitude m e < magnitude mf ef ->
  (magnitude m e / 2 ^ (fexp prec emax (Z.pos (digits2_pos m) + e) + bias) + 1)
  * 2 ^ (fexp prec emax (Z.pos (digits2_pos m) + e) + bias)
  <= magnitude mf ef.
Proof.
  intros H. set (E := fexp prec emax (Z.pos (digits2_pos m) + e)).
  assert (EE : E = Z.max (Z.pos (digits2_pos m) + e - 53) (-1074)) by reflexivity.
  destruct (valid_finite _ _ _ f_valid) as (Hef & Hdf & _).
  assert (HEb : 0 <= E + bias) by (unfold bias; lia).
  pose proof (pow2_pos _ HEb) as PE.
  destruct (Z_le_gt_dec E ef) as [C|C].
  - assert (Ef : magnitude mf ef = Z.pos mf * 2 ^ (ef - E) * 2 ^ (E + bias)).
    { unfold magnitude. rewrite <- Z.mul_assoc, <- Z.pow_add_r by lia.
      do 2 f_equal. lia. }
    rewrite Ef in H |- *. apply Z.mul_le_mono_nonneg_r; [lia|].
    assert (magnitude m e / 2 ^ (E + bias) < Z.pos mf * 2 ^ (ef - E)); [|lia].
    apply Z.div_lt_upper_bound; [exact PE|]. lia.
  - exfalso.
    pose proof (magnitude_bounds m e exponent_bound) as [Xl _].
    pose proof (magnitude_bounds mf ef ltac:(unfold bias; lia)) as [_ Fu].
    assert (2 ^ (Z.pos (digits2_pos mf) + (ef + bias))
            <= 2 ^ (Z.pos (digits2_pos m) - 1 + (e + bias)))
      by (apply pow2_le; unfold bias in *; lia).
    lia.
Qed.

End Enclosure.

(** ** Sums *)

Lemma shl_align_magnitude (m : positive) (e ez : Z) :
  - bias <= ez -> ez <= e ->
  Z.pos (fst (shl_align m e ez)) * 2 ^ (ez + bias) = magnitude m e.
Proof.
  intros Hz He. unfold shl_align, magnitude.
  destruct (ez - e) as [|d|d] eqn:Ed; cbn [fst]; [| lia |].
  - replace ez with e by lia. reflexivity.
  - destruct (shift_mantissa m d) as [-> _].
    replace (e + bias) with (Z.pos d + (ez + bias)) by lia.
    rewrite (Z.pow_add_r 2 (Z.pos d) (ez + bias)) by lia. ring.
Qed.

(** The value of a rounded magnitude lies between the two multiples of
    2^E that enclose the magnitude. *)
Lemma rounded_value (s : bool) (m1 E : Z) (r : spec_float) :
  rounded s m1 E r ->
  (value r = cond_Zopp s (m1 * 2 ^ (E + bias)) /\ finite r = true) \/
  (r = S754_infinity s /\ huge <= m1 * 2 ^ (E + bias)).
Proof.
  destruct r as [s'|s'| |s' m' e']; cbn [rounded value finite].
  - intros [-> ->]. left. destruct s; split; reflexivity.
  - intros [-> H]. right. split; [reflexivity|exact H].
  - intros [].
  - intros (-> & _ & ->). left. split; reflexivity.
Qed.

Lemma SFadd_finite (sx sy : bool) (mx my : positive) (ex ey : Z) :
  valid_binary (S754_finite sx mx ex) = true ->
  valid_binary (S754_finite sy my ey) = true ->
  let x := S754_finite sx mx ex in
  let y := S754_finite sy my ey in
  let total := value x + value y in
  (total = 0 /\ SFadd prec emax x y = S754_zero false) \/
  exists (s : bool) (m : positive) (e : Z),
    - bias <= e /\ total = cond_Zopp s (magnitude m e) /\
    SFadd prec emax x y = binary_round prec emax s m e.
Proof.
  intros Vx Vy; cbv zeta.
  destruct (valid_finite _ _ _ Vx) as (Hex & _).
  destruct (valid_finite _ _ _ Vy) as (Hey & _).
  cbn [SFadd value].
  set (ez := Z.min ex ey).
  assert (Hz : - bias <= ez) by (unfold bias, ez; lia).
  pose proof (shl_align_magnitude mx ex ez Hz ltac:(unfold ez; lia)) as Ax.
  pose proof (shl_align_magnitude my ey ez Hz ltac:(unfold ez; lia)) as Ay.
  set (ax := Z.pos (fst (shl_align mx ex ez))) in *.
  set (ay := Z.pos (fst (shl_align my ey ez))) in *.
  assert (T : cond_Zopp sx (magnitude mx ex) + cond_Zopp sy (magnitude my ey)
              = (cond_Zopp sx ax + cond_Zopp sy ay) * 2 ^ (ez + bias)).
  { rewrite <- Ax, <- Ay. destruct sx, sy; cbn [cond_Zopp]; ring. }
  rewrite T. pose proof (pow2_pos (ez + bias) ltac:(lia)) as Pz.
  unfold binary_normalize.
  destruct (cond_Zopp sx ax + cond_Zopp sy ay) as [|p|p].
  - left. split; reflexivity.
  - right. exists false, p, ez. split; [exact Hz|]. split; reflexivity.
  - right. exists true, p, ez. split; [exact Hz|]. split; [|reflexivity].
    unfold magnitude. cbn [cond_Zopp]. lia.
Qed.

(** The sum of two doubles is not below a double that the exact sum
    exceeds, and not above a double that exceeds the exact sum. *)
Lemma SFadd_above (x y f : spec_float) :
  valid_binary x = true -> valid_binary y = true -> valid_binary f = true ->
  finite x = true -> finite y = true -> finite f = true ->
  value f < value x + value y ->
  isNumber (SFadd prec emax x y) = true /\ value f <= value (SFadd prec emax x y).
Proof.
  intros Vx Vy Vf Fx Fy Ff H.
  destruct x as [sx| | |sx mx ex]; try discriminate Fx;
  destruct y as [sy| | |sy my ey]; try discriminate Fy.
  - cbn [value] in H. destruct sx, sy; cbn; split; try reflexivity; lia.
  - cbn [SFadd]. split; [reflexivity|]. cbn [value] in *. lia.
  - cbn [SFadd]. split; [reflexivity|]. cbn [value] in *. lia.
  - destruct (SFadd_finite sx sy mx my ex ey Vx Vy) as [[T ->] | (s & m & e & He & T & ->)].
    + split; [reflexivity|]. cbn [value] in *. lia.
    + destruct (binary_round_value s m e He) as (m1 & [Hl Hu] & R).
      set (E := fexp prec emax (Z.pos (digits2_pos m) + e)) in *.
      assert (HEb : 0 <= E + bias) by (unfold E; rewrite fexp_spec; unfold bias; lia).
      pose proof (pow2_pos _ HEb) as PE.
      pose proof (magnitude_pos m e He) as Xp.
      assert (Q0 : 0 <= magnitude m e / 2 ^ (E + bias)) by (apply Z.div_pos; lia).
      assert (N : isNumber (binary_round prec emax s m e) = true).
      { destruct (binary_round prec emax s m e); try reflexivity. destruct R. }
      split; [exact N|].
      rewrite T in H.
      destruct (rounded_value _ _ _ _ R) as [[-> _] | [-> Hh]].
      * destruct s; cbn [cond_Zopp] in *.
        -- (* negative sum *)
           destruct f as [sf| | |sf mf ef]; try discriminate Ff; cbn [value] in *; [lia|].
           destruct sf; cbn [cond_Zopp] in *;
             [|pose proof (valid_magnitude _ _ _ Vf); lia].
           pose proof (enclose_above m mf e ef true He Vf ltac:(lia)) as A.
           fold E in A.
           assert (m1 * 2 ^ (E + bias)
                   <= (magnitude m e / 2 ^ (E + bias) + 1) * 2 ^ (E + bias))
             by (apply Z.mul_le_mono_nonneg_r; lia).
           lia.
        -- (* positive sum *)
           assert (M0 : 0 <= m1 * 2 ^ (E + bias)) by (apply Z.mul_nonneg_nonneg; lia).
           destruct f as [sf| | |sf mf ef]; try discriminate Ff; cbn [value] in *; [lia|].
           destruct sf; cbn [cond_Zopp] in *;
             [pose proof (valid_magnitude _ _ _ Vf); lia|].
           pose proof (enclose_below m mf e ef false He Vf ltac:(lia)) as A.
           fold E in A.
           assert (magnitude m e / 2 ^ (E + bias) * 2 ^ (E + bias)
                   <= m1 * 2 ^ (E + bias))
             by (apply Z.mul_le_mono_nonneg_r; lia).
           lia.
      * destruct s; cbn [cond_Zopp value] in *.
        -- (* the sum overflows downwards: impossible *)
           exfalso.
           destruct f as [sf| | |sf mf ef]; try discriminate Ff; cbn [value] in *; [lia|].
           destruct sf; cbn [cond_Zopp] in *;
             [|pose proof (valid_magnitude _ _ _ Vf); lia].
           pose proof (enclose_above m mf e ef true He Vf ltac:(lia)) as A.
           fold E in A.
           assert (m1 * 2 ^ (E + bias)
                   <= (magnitude m e / 2 ^ (E + bias) + 1) * 2 ^ (E + bias))
             by (apply Z.mul_le_mono_nonneg_r; lia).
           pose proof (valid_magnitude _ _ _ Vf). lia.
        -- destruct f as [sf| | |sf mf ef]; try discriminate Ff; cbn [value] in *.
           ++ unfold huge. apply Z.lt_le_incl, pow2_pos. unfold bias. change emax with 1024. lia.
           ++ pose proof (valid_magnitude _ _ _ Vf).
              destruct sf; cbn [cond_Zopp]; lia.
Qed.

Lemma SFadd_below (x y f : spec_float) :
  valid_binary x = true -> valid_binary y = true -> valid_binary f = true ->
  finite x = true -> finite y = true -> finite f = true ->
  value x + value y < value f ->
  isNumber (SFadd prec emax x y) = true /\ value (SFadd prec emax x y) <= value f.
Proof.
  intros Vx Vy Vf Fx Fy Ff H.
  destruct x as [sx| | |sx mx ex]; try discriminate Fx;
  destruct y as [sy| | |sy my ey]; try discriminate Fy.
  - cbn [value] in H. destruct sx, sy; cbn; split; try reflexivity; lia.
  - cbn [SFadd]. split; [reflexivity|]. cbn [value] in *. lia.
  - cbn [SFadd]. split; [reflexivity|]. cbn [value] in *. lia.
  - destruct (SFadd_finite sx sy mx my ex ey Vx Vy) as [[T ->] | (s & m & e & He & T & ->)].
    + split; [reflexivity|]. cbn [value] in *. lia.
    + destruct (binary_round_value s m e He) as (m1 & [Hl Hu] & R).
      set (E := fexp prec emax (Z.pos (digits2_pos m) + e)) in *.
      assert (HEb : 0 <= E + bias) by (unfold E; rewrite fexp_spec; unfold bias; lia).
      pose proof (pow2_pos _ HEb) as PE.
      pose proof (magnitude_pos m e He) as Xp.
      assert (Q0 : 0 <= magnitude m e / 2 ^ (E + bias)) by (apply Z.div_pos; lia).
      assert (N : isNumber (binary_round prec emax s m e) = true).
      { destruct (binary_round prec emax s m e); try reflexivity. destruct R. }
      split; [exact N|].
      rewrite T in H.
      destruct (rounded_value _ _ _ _ R) as [[-> _] | [-> Hh]].
      * destruct s; cbn [cond_Zopp] in *.
        -- (* negative sum *)
           assert (M0 : 0 <= m1 * 2 ^ (E + bias)) by (apply Z.mul_nonneg_nonneg; lia).
           destruct f as [sf| | |sf mf ef]; try discriminate Ff; cbn [value] in *; [lia|].
           destruct sf; cbn [cond_Zopp] in *;
             [|pose proof (valid_magnitude _ _ _ Vf); lia].
           pose proof (enclose_below m mf e ef true He Vf ltac:(lia)) as A.
           fold E in A.
           assert (magnitude m e / 2 ^ (E + bias) * 2 ^ (E + bias)
                   <= m1 * 2 ^ (E + bias))
             by (apply Z.mul_le_mono_nonneg_r; lia).
           lia.
        -- (* positive sum *)
           destruct f as [sf| | |sf mf ef]; try discriminate Ff; cbn [value] in *; [lia|].
           destruct sf; cbn [cond_Zopp] in *;
             [pose proof (valid_magnitude _ _ _ Vf); lia|].
           pose proof (enclose_above m mf e ef false He Vf ltac:(lia)) as A.
           fold E in A.
           assert (m1 * 2 ^ (E + bias)
                   <= (magnitude m e / 2 ^ (E + bias) + 1) * 2 ^ (E + bias))
             by (apply Z.mul_le_mono_nonneg_r; lia).
           lia.
      * destruct s; cbn [cond_Zopp value] in *.
        -- destruct f as [sf| | |sf mf ef]; try discriminate Ff; cbn [value] in *.
           ++ assert (0 < huge); [|lia].
              unfold huge. apply pow2_pos. unfold bias. change emax with 1024. lia.
           ++ pose proof (valid_magnitude _ _ _ Vf).
              destruct sf; cbn [cond_Zopp]; lia.
        -- (* the sum overflows upwards: impossible *)
           exfalso.
           destruct f as [sf| | |sf mf ef]; try discriminate Ff; cbn [value] in *; [lia|].
           destruct sf; cbn [cond_Zopp] in *;
             [pose proof (valid_magnitude _ _ _ Vf); lia|].
           pose proof (enclose_above m mf e ef false He Vf ltac:(lia)) as A.
           fold E in A.
           assert (m1 * 2 ^ (E + bias)
                   <= (magnitude m e / 2 ^ (E + bias) + 1) * 2 ^ (E + bias))
             by (apply Z.mul_le_mono_nonneg_r; lia).
           pose proof (valid_magnitude _ _ _ Vf). lia.
Qed.

(** A sum that is not negative as an exact number is not a negative
    double. *)
Lemma SFadd_sign (x y : spec_float) :
  valid_binary x = true -> valid_binary y = true ->
  finite x = true -> finite y = true ->
  0 <= value x + value y ->
  isNumber (SFadd prec emax x y) = true /\ 0 <= value (SFadd prec emax x y).
Proof.
  intros Vx Vy Fx Fy H.
  destruct x as [sx| | |sx mx ex]; try discriminate Fx;
  destruct y as [sy| | |sy my ey]; try discriminate Fy.
  - destruct sx, sy; cbn; split; try reflexivity; lia.
  - cbn [SFadd]. split; [reflexivity|]. cbn [value] in *. lia.
  - cbn [SFadd]. split; [reflexivity|]. cbn [value] in *. lia.
  - destruct (SFadd_finite sx sy mx my ex ey Vx Vy) as [[T ->] | (s & m & e & He & T & ->)].
    + split; [reflexivity|]. cbn [value]. lia.
    + destruct (binary_round_value s m e He) as (m1 & [Hl Hu] & R).
      set (E := fexp prec emax (Z.pos (digits2_pos m) + e)) in *.
      assert (HEb : 0 <= E + bias) by (unfold E; rewrite fexp_spec; unfold bias; lia).
      pose proof (pow2_pos _ HEb) as PE.
      pose proof (magnitude_pos m e He) as Xp.
      assert (Q0 : 0 <= magnitude m e / 2 ^ (E + bias)) by (apply Z.div_pos; lia).
      rewrite T in H. destruct s; cbn [cond_Zopp] in H; [lia|].
      assert (N : isNumber (binary_round prec emax false m e) = true).
      { destruct (binary_round prec emax false m e); try reflexivity. destruct R. }
      split; [exact N|].
      destruct (rounded_value _ _ _ _ R) as [[-> _] | [-> Hh]]; cbn [cond_Zopp value].
      * apply Z.mul_nonneg_nonneg; lia.
      * unfold huge. apply Z.lt_le_incl, pow2_pos. unfold bias. change emax with 1024. lia.
Qed.

(** ** Differences *)

Lemma SFopp_value (x : spec_float) : value (SFopp x) = - value x.
Proof. destruct x as [s|s| |s m e]; cbn; try destruct s; cbn; lia. Qed.

Lemma SFopp_valid (x : spec_float) :
  valid_binary x = true -> valid_binary (SFopp x) = true.
Proof. destruct x; intros H; exact H. Qed.

Lemma SFopp_finite (x : spec_float) : finite (SFopp x) = finite x.
Proof. destruct x; reflexivity. Qed.

Lemma SFsub_add (x y : spec_float) :
  SFsub prec emax x y = SFadd prec emax x (SFopp y).
Proof.
  destruct x as [sx|sx| |sx mx ex], y as [sy|sy| |sy my ey]; cbn [SFsub SFadd SFopp];
    try reflexivity; try (destruct sx, sy; reflexivity).
Qed.

(** ** The order of doubles through their values *)

Lemma SFltb_value (x y : spec_float) :
  valid_binary x = true -> valid_binary y = true ->
  isNumber x = true -> isNumber y = true ->
  SFltb x y = (value x <? value y).
Proof.
  intros Vx Vy Nx Ny. unfold SFltb. rewrite (SFcompare_value x y Vx Vy Nx Ny).
  unfold Z.ltb. destruct (value x ?= value y); reflexivity.
Qed.

Lemma SFleb_value (x y : spec_float) :
  valid_binary x = true -> valid_binary y = true ->
  isNumber x = true -> isNumber y = true ->
  SFleb x y = (value x <=? value y).
Proof.
  intros Vx Vy Nx Ny. unfold SFleb. rewrite (SFcompare_value x y Vx Vy Nx Ny).
  unfold Z.leb. destruct (value x ?= value y); reflexivity.
Qed.

Lemma SFltb_nan (x y : spec_float) :
  isNumber x = false \/ isNumber y = false -> SFltb x y = false.
Proof.
  intros [H|H]; destruct x as [?|?| |? ? ?], y as [?|?| |? ? ?];
    try discriminate H; reflexivity.
Qed.

Lemma SFleb_nan (x y : spec_float) :
  isNumber x = false \/ isNumber y = false -> SFleb x y = false.
Proof.
  intros [H|H]; destruct x as [?|?| |? ? ?], y as [?|?| |? ? ?];
    try discriminate H; reflexivity.
Qed.

Lemma huge_pos : 0 < huge.
Proof. unfold huge. apply pow2_pos. unfold bias. change emax with 1024. lia. Qed.

Lemma value_range (x : spec_float) :
  valid_binary x = true ->
  - huge <= value x <= huge /\ (finite x = true -> - huge < value x < huge).
Proof.
  intros V.
  assert (H : 0 < huge).
  { unfold huge. apply pow2_pos. unfold bias. change emax with 1024. lia. }
  destruct x as [s|s| |s m e]; cbn [value finite].
  - lia.
  - destruct s; cbn [cond_Zopp]; split; try lia; discriminate.
  - split; [lia|discriminate].
  - pose proof (valid_magnitude s m e V). destruct s; cbn [cond_Zopp]; lia.
Qed.

Lemma SFadd_nan (x y : spec_float) :
  isNumber x = false \/ isNumber y = false -> SFadd prec emax x y = S754_nan.
Proof.
  intros [H|H]; destruct x as [?|?| |? ? ?], y as [?|?| |? ? ?];
    try discriminate H; reflexivity.
Qed.

Lemma ltb_val (x y : float) :
  PrimFloat.ltb x y = notNaN x && notNaN y && (val x <? val y).
Proof.
  rewrite ltb_spec. unfold notNaN, val.
  destruct (isNumber (Prim2SF x)) eqn:Nx; [|apply SFltb_nan; left; exact Nx].
  destruct (isNumber (Prim2SF y)) eqn:Ny; [|apply SFltb_nan; right; exact Ny].
  apply SFltb_value; try assumption; apply Prim2SF_valid.
Qed.

Lemma leb_val (x y : float) :
  PrimFloat.leb x y = notNaN x && notNaN y && (val x <=? val y).
Proof.
  rewrite leb_spec. unfold notNaN, val.
  destruct (isNumber (Prim2SF x)) eqn:Nx; [|apply SFleb_nan; left; exact Nx].
  destruct (isNumber (Prim2SF y)) eqn:Ny; [|apply SFleb_nan; right; exact Ny].
  apply SFleb_value; try assumption; apply Prim2SF_valid.
Qed.

Lemma ltb_irreflexive (x : float) : PrimFloat.ltb x x = false.
Proof.
  rewrite ltb_val. rewrite Z.ltb_irrefl. apply andb_false_r.
Qed.

Lemma leb_not_ltb (x y : float) :
  PrimFloat.leb x y = true -> PrimFloat.ltb y x = false.
Proof.
  rewrite leb_val, ltb_val. intros H.
  apply andb_true_iff in H. destruct H as [H L]. apply Z.leb_le in L.
  apply andb_false_iff. right. apply Z.ltb_ge. exact L.
Qed.

Lemma not_ltb_leb (x y : float) :
  notNaN x = true -> notNaN y = true ->
  PrimFloat.ltb y x = false -> PrimFloat.leb x y = true.
Proof.
  rewrite leb_val, ltb_val. intros -> ->. cbn [andb].
  intros H. apply Z.ltb_ge in H. apply Z.leb_le. exact H.
Qed.

(** Adding a positive step never takes a double below a bound that it
    was not below; the sum may be NaN, which is below nothing. *)
Lemma add_keeps_above (y s b : float) :
  PrimFloat.leb s 0 = false -> PrimFloat.ltb y b = false ->
  PrimFloat.ltb (y + s) b = false.
Proof.
  intros Hs Hy. rewrite ltb_val in Hy |- *. rewrite leb_val in Hs.
  destruct (notNaN (y + s)) eqn:Nr; [|reflexivity].
  destruct (notNaN b) eqn:Nb; [|reflexivity]. cbn [andb].
  unfold notNaN, val in *. rewrite add_spec in Nr |- *.
  pose proof (Prim2SF_valid y) as Vy. pose proof (Prim2SF_valid s) as Vs.
  pose proof (Prim2SF_valid b) as Vb. pose proof (Prim2SF_valid (y + s)) as Vr.
  rewrite add_spec in Vr. unfold SF64add in *.
  destruct (isNumber (Prim2SF y)) eqn:Ny;
    [|rewrite SFadd_nan in Nr by (left; exact Ny); discriminate Nr].
  destruct (isNumber (Prim2SF s)) eqn:Ns;
    [|rewrite SFadd_nan in Nr by (right; exact Ns); discriminate Nr].
  change (Prim2SF 0) with (S754_zero false) in Hs. cbn [isNumber andb value] in Hs, Hy.
  apply Z.leb_gt in Hs. apply Z.ltb_ge in Hy. apply Z.ltb_ge.
  pose proof (value_range _ Vy) as [Ry Ry']. pose proof (value_range _ Vs) as [Rs Rs'].
  pose proof (value_range _ Vb) as [Rb Rb']. pose proof (value_range _ Vr) as [Rr _].
  pose proof huge_pos as Hp.
  destruct (finite (Prim2SF y)) eqn:Fy.
  - destruct (finite (Prim2SF s)) eqn:Fs.
    + destruct (finite (Prim2SF b)) eqn:Fb.
      * apply (SFadd_above _ _ _ Vy Vs Vb Fy Fs Fb). lia.
      * destruct (Prim2SF b) as [?|[|]| |? ? ?]; try discriminate; cbn [value cond_Zopp] in *.
        -- exact (proj1 Rr).
        -- specialize (Ry' eq_refl). clear - Hy Ry' Hp. lia.
    + destruct (Prim2SF s) as [?|[|]| |? ? ?]; try discriminate; cbn [value cond_Zopp] in *.
      destruct (Prim2SF y) as [?|?| |? ? ?]; try discriminate; cbn [SFadd value cond_Zopp] in *;
        clear - Rb Hp; lia.
  - destruct (Prim2SF y) as [?|sy| |? ? ?]; try discriminate.
    destruct (Prim2SF s) as [?|ss| |? ? ?]; try discriminate; cbn [SFadd] in *; try exact Hy.
    destruct sy, ss; cbn [Bool.eqb] in *; first [exact Hy | discriminate Nr].
Qed.

(** Subtracting a positive step never takes a double above a bound that
    it was not above. *)
Lemma sub_keeps_below (y s b : float) :
  PrimFloat.leb s 0 = false -> PrimFloat.ltb b y = false ->
  PrimFloat.ltb b (y - s) = false.
Proof.
  intros Hs Hy. rewrite ltb_val in Hy |- *. rewrite leb_val in Hs.
  destruct (notNaN (y - s)) eqn:Nr; [|apply andb_false_iff; left; apply andb_false_r].
  destruct (notNaN b) eqn:Nb; [|reflexivity]. cbn [andb].
  unfold notNaN, val in *. rewrite sub_spec in Nr |- *.
  pose proof (Prim2SF_valid y) as Vy. pose proof (Prim2SF_valid s) as Vs.
  pose proof (Prim2SF_valid b) as Vb. pose proof (Prim2SF_valid (y - s)) as Vr.
  rewrite sub_spec in Vr. unfold SF64sub in *. rewrite SFsub_add in Nr, Vr |- *.
  unfold SF64add in *.
  destruct (isNumber (Prim2SF y)) eqn:Ny;
    [|rewrite SFadd_nan in Nr by (left; exact Ny); discriminate Nr].
  destruct (isNumber (Prim2SF s)) eqn:Ns;
    [|rewrite SFadd_nan in Nr by (right; destruct (Prim2SF s); try discriminate Ns; reflexivity);
      discriminate Nr].
  change (Prim2SF 0) with (S754_zero false) in Hs. cbn [isNumber andb value] in Hs, Hy.
  apply Z.leb_gt in Hs. apply Z.ltb_ge in Hy. apply Z.ltb_ge.
  pose proof (SFopp_value (Prim2SF s)) as Ov.
  pose proof (SFopp_valid _ Vs) as Vo. pose proof (SFopp_finite (Prim2SF s)) as Fo.
  remember (SFopp (Prim2SF s)) as o eqn:Eo.
  pose proof (value_range _ Vy) as [Ry Ry']. pose proof (value_range _ Vo) as [Rs Rs'].
  pose proof (value_range _ Vb) as [Rb Rb']. pose proof (value_range _ Vr) as [Rr _].
  pose proof huge_pos as Hp.
  destruct (finite (Prim2SF y)) eqn:Fy.
  - destruct (finite o) eqn:Fs.
    + destruct (finite (Prim2SF b)) eqn:Fb.
      * apply (SFadd_below _ _ _ Vy Vo Vb Fy Fs Fb). lia.
      * destruct (Prim2SF b) as [?|[|]| |? ? ?]; try discriminate; cbn [value cond_Zopp] in *.
        -- specialize (Ry' eq_refl). clear - Hy Ry' Hp. lia.
        -- exact (proj2 Rr).
    + destruct o as [?|[|]| |? ? ?]; try discriminate; cbn [value cond_Zopp] in *;
        destruct (Prim2SF y) as [?|?| |? ? ?]; try discriminate;
        cbn [SFadd value cond_Zopp] in *; clear - Rb Hp Hs Ov; lia.
  - destruct (Prim2SF y) as [?|sy| |? ? ?]; try discriminate.
    destruct o as [?|ss| |? ? ?]; try discriminate; cbn [SFadd] in *; try exact Hy.
    destruct sy, ss; cbn [Bool.eqb] in *; first [exact Hy | discriminate Nr].
Qed.

(** ** Rounding what is a double already *)

Lemma binary_round_aux_exact (s : bool) (mz : positive) (ez : Z) :
  fexp prec emax (Z.pos (digits2_pos mz) + ez) = ez ->
  rounded s (Z.pos mz) ez (binary_round_aux prec emax s (Z.pos mz) ez loc_Exact).
Proof.
  intros H. pose proof H as H'. rewrite fexp_spec in H'.
  pose proof (digits2_bounds mz) as [Dl Du].
  assert (Hd : Z.pos (digits2_pos mz) <= 53) by lia.
  assert (Hm : Z.pos mz <= 2 ^ 53).
  { apply Z.lt_le_incl. eapply Z.lt_le_trans; [exact Du|]. apply pow2_le. lia. }
  assert (Hn : -1074 < ez -> 2 ^ 52 <= Z.pos mz).
  { intros G. replace (Z.pos (digits2_pos mz)) with 53 in Dl by lia. exact Dl. }
  unfold binary_round_aux.
  assert (S1 : shr_fexp prec emax (Z.pos mz) ez loc_Exact
               = ({| shr_m := Z.pos mz; shr_r := false; shr_s := false |}, ez)).
  { unfold shr_fexp. cbn [Zdigits2 shr_record_of_loc]. rewrite H, Z.sub_diag. reflexivity. }
  rewrite S1. cbn [shr_m loc_of_shr_record round_nearest_even].
  apply final_stage; lia.
Qed.

Lemma binary_round_exact (s : bool) (m : positive) (e : Z) :
  let E := fexp prec emax (Z.pos (digits2_pos m) + e) in
  E <= e ->
  rounded s (Z.pos m * 2 ^ (e - E)) E (binary_round prec emax s m e).
Proof.
  intros E HE. unfold binary_round. fold E. unfold shl_align.
  destruct (E - e) as [|d|d] eqn:Ed; [|lia|].
  - assert (E = e) by lia.
    replace (Z.pos m * 2 ^ (e - E)) with (Z.pos m) by (replace (e - E) with 0 by lia; lia).
    replace E with e at 1 by lia.
    apply binary_round_aux_exact. fold E. lia.
  - destruct (shift_mantissa m d) as [Hm Hd].
    replace (e - E) with (Z.pos d) by lia. rewrite <- Hm.
    apply binary_round_aux_exact. rewrite Hd.
    replace (Z.pos (digits2_pos m) + Z.pos d + E) with (Z.pos (digits2_pos m) + e) by lia.
    reflexivity.
Qed.

(** Rounding a positive magnitude below a double [f] gives a finite
    double between zero and [f]. *)
Lemma binary_round_below (m : positive) (e : Z) (f : spec_float) :
  - bias <= e -> valid_binary f = true -> finite f = true ->
  magnitude m e < value f ->
  finite (binary_round prec emax false m e) = true /\
  0 <= value (binary_round prec emax false m e) <= value f.
Proof.
  intros He Vf Ff H.
  destruct (binary_round_value false m e He) as (m1 & [Hl Hu] & R).
  set (E := fexp prec emax (Z.pos (digits2_pos m) + e)) in *.
  assert (HEb : 0 <= E + bias) by (unfold E; rewrite fexp_spec; unfold bias; lia).
  pose proof (pow2_pos _ HEb) as PE.
  pose proof (magnitude_pos m e He) as Xp.
  assert (Q0 : 0 <= magnitude m e / 2 ^ (E + bias)) by (apply Z.div_pos; lia).
  assert (M0 : 0 <= m1 * 2 ^ (E + bias)) by (apply Z.mul_nonneg_nonneg; lia).
  destruct f as [sf| | |sf mf ef]; try discriminate Ff; cbn [value] in H; [lia|].
  pose proof (valid_magnitude _ _ _ Vf) as [F0 F1].
  destruct sf; cbn [cond_Zopp value] in *; [lia|].
  pose proof (enclose_above m mf e ef false He Vf ltac:(lia)) as A.
  fold E in A.
  assert (B : m1 * 2 ^ (E + bias)
              <= (magnitude m e / 2 ^ (E + bias) + 1) * 2 ^ (E + bias))
    by (apply Z.mul_le_mono_nonneg_r; lia).
  destruct (rounded_value _ _ _ _ R) as [[V F] | [_ Hh]].
  - split; [exact F|]. rewrite V. cbn [cond_Zopp]. lia.
  - lia.
Qed.

(** ** The remainder of std::fmod and the normalised angle *)

(** The double built from a mantissa below 2^53 and its exponent. *)
Lemma SF2Prim_finite (s : bool) (m : positive) (e : Z) (f : spec_float) :
  Z.pos m < 2 ^ 53 -> -1074 <= e ->
  valid_binary f = true -> finite f = true -> magnitude m e < value f ->
  let r := Prim2SF (SF2Prim (S754_finite s m e)) in
  finite r = true /\
  (if s then - value f <= value r <= 0 else 0 <= value r <= value f).
Proof.
  intros Hm He Vf Ff H.
  assert (R1 : exists m1 e1,
             Prim2SF (of_uint63 (Uint63.of_Z (Z.pos m))) = S754_finite false m1 e1 /\
             -1074 <= e1 /\ magnitude m1 e1 = Z.pos m * 2 ^ bias).
  { pose proof (Prim2SF_valid (of_uint63 (Uint63.of_Z (Z.pos m)))) as V.
    assert (Hw : Uint63.to_Z (Uint63.of_Z (Z.pos m)) = Z.pos m).
    { rewrite Uint63.of_Z_spec. apply Z.mod_small.
      split; [lia|]. eapply Z.lt_trans; [exact Hm|]. reflexivity. }
    rewrite of_uint63_spec, Hw in V |- *.
    cbn [binary_normalize] in V |- *.
    pose proof (digits_below m 53 ltac:(lia) Hm) as Hd.
    pose proof (binary_round_exact false m 0) as X. cbv zeta in X.
    rewrite fexp_spec in X.
    replace (Z.max (Z.pos (digits2_pos m) + 0 - 53) (-1074))
      with (Z.pos (digits2_pos m) - 53) in X by lia.
    specialize (X ltac:(lia)).
    assert (Em : Z.pos m * 2 ^ (0 - (Z.pos (digits2_pos m) - 53))
                 * 2 ^ (Z.pos (digits2_pos m) - 53 + bias) = Z.pos m * 2 ^ bias).
    { rewrite <- Z.mul_assoc, <- Z.pow_add_r by (unfold bias; lia).
      do 2 f_equal. lia. }
    assert (Hb : Z.pos m * 2 ^ bias < huge).
    { unfold huge. change emax with 1024.
      eapply Z.lt_le_trans;
        [apply Z.mul_lt_mono_pos_r; [apply pow2_pos; unfold bias; lia|exact Hm]|].
      rewrite <- Z.pow_add_r by (unfold bias; lia). apply pow2_le. unfold bias. lia. }
    destruct (binary_round prec emax false m 0) as [s1|s1| |s1 m1 e1]; cbn [rounded] in X.
    - destruct X as [_ X]. pose proof (pow2_pos (0 - (Z.pos (digits2_pos m) - 53)) ltac:(lia)).
      assert (0 < Z.pos m * 2 ^ (0 - (Z.pos (digits2_pos m) - 53)))
        by (apply Z.mul_pos_pos; lia).
      lia.
    - destruct X as [_ X]. rewrite Em in X. lia.
    - destruct X.
    - destruct X as (-> & _ & X). rewrite Em in X.
      destruct (valid_finite _ _ _ V) as (He1 & _).
      exists m1, e1. split; [reflexivity|]. split; [lia|exact X]. }
  destruct R1 as (m1 & e1 & P1 & He1 & M1).
  assert (R2 : Prim2SF (Z.ldexp (of_uint63 (Uint63.of_Z (Z.pos m))) e)
               = binary_round prec emax false m1 (e1 + e)).
  { rewrite Z_ldexp_spec, P1. reflexivity. }
  assert (M2 : magnitude m1 (e1 + e) = magnitude m e).
  { unfold magnitude in *.
    pose proof (pow2_pos bias ltac:(unfold bias; lia)) as Pb.
    apply (Z.mul_reg_r _ _ (2 ^ bias)); [lia|].
    rewrite <- !Z.mul_assoc, <- !Z.pow_add_r by (unfold bias; lia).
    replace (e1 + e + bias + bias) with ((e1 + bias) + (e + bias)) by lia.
    rewrite (Z.pow_add_r 2 (e1 + bias) (e + bias)) by (unfold bias; lia).
    rewrite Z.mul_assoc, M1.
    rewrite (Z.pow_add_r 2 (e + bias) bias) by (unfold bias; lia). ring. }
  destruct (binary_round_below m1 (e1 + e) f ltac:(unfold bias; lia) Vf Ff
              ltac:(rewrite M2; exact H)) as [F [V0 V1]].
  rewrite <- R2 in F, V0, V1.
  cbv zeta. unfold SF2Prim. destruct s.
  - rewrite opp_spec, SFopp_finite, SFopp_value. split; [exact F|lia].
  - split; [exact F|lia].
Qed.

Lemma SF2Prim_zero (s : bool) : Prim2SF (SF2Prim (S754_zero s)) = S754_zero s.
Proof. destruct s; reflexivity. Qed.

(** [std::fmod] by a positive double [y]: NaN for an infinite or NaN
    argument, otherwise a finite double that is not above [y] in
    magnitude. *)
Lemma fmod64_range (x y : float) (my : positive) (ey : Z) :
  Prim2SF y = S754_finite false my ey ->
  (finite (Prim2SF x) = false -> Prim2SF (fmod64 x y) = S754_nan) /\
  (finite (Prim2SF x) = true ->
   finite (Prim2SF (fmod64 x y)) = true /\
   - val y <= val (fmod64 x y) <= val y).
Proof.
  intros Ey. unfold fmod64, val. rewrite Ey.
  pose proof (Prim2SF_valid y) as Vy. rewrite Ey in Vy.
  pose proof (valid_magnitude _ _ _ Vy) as [Y0 Y1].
  pose proof (Prim2SF_valid x) as Vx.
  destruct (Prim2SF x) as [sx|sx| |sx mx ex] eqn:Ex; cbn [finite value cond_Zopp].
  - split; [discriminate|]. intros _. rewrite Ex. cbn [finite value]. split; [reflexivity|lia].
  - split; [reflexivity|discriminate].
  - split; [reflexivity|discriminate].
  - split; [discriminate|]. intros _.
    destruct (valid_finite _ _ _ Vx) as (Hex & Hdx & _).
    destruct (valid_finite _ _ _ Vy) as (Hey & Hdy & _).
    set (e := Z.min ex ey).
    assert (He : -1074 <= e) by (unfold e; lia).
    pose proof (pow2_pos (ex - e) ltac:(unfold e; lia)) as Px.
    pose proof (pow2_pos (ey - e) ltac:(unfold e; lia)) as Py.
    set (a := Z.pos mx * 2 ^ (ex - e)). set (b := Z.pos my * 2 ^ (ey - e)).
    assert (Hb : 0 < b) by (unfold b; apply Z.mul_pos_pos; lia).
    assert (Ha : 0 <= a) by (unfold a; apply Z.mul_nonneg_nonneg; lia).
    pose proof (Z.mod_pos_bound a b Hb) as [R0 R1].
    pose proof (Z.mod_le a b Ha Hb) as R2.
    destruct (a mod b) as [|m|m] eqn:Er; [| |lia].
    + rewrite SF2Prim_zero. cbn [finite value]. split; [reflexivity|lia].
    + assert (Hm : Z.pos m < 2 ^ 53).
      { pose proof (digits2_bounds mx) as [_ Ux]. pose proof (digits2_bounds my) as [_ Uy].
        assert (2 ^ Z.pos (digits2_pos mx) <= 2 ^ 53) by (apply pow2_le; lia).
        assert (2 ^ Z.pos (digits2_pos my) <= 2 ^ 53) by (apply pow2_le; lia).
        destruct (Z.min_spec ex ey) as [[_ Em]|[_ Em]]; fold e in Em.
        - unfold a in R2. replace (ex - e) with 0 in R2 by lia.
          change (2 ^ 0) with 1 in R2. lia.
        - unfold b in R1. replace (ey - e) with 0 in R1 by lia.
          change (2 ^ 0) with 1 in R1. lia. }
      assert (Hv : magnitude m e < value (S754_finite false my ey)).
      { cbn [value cond_Zopp]. unfold magnitude.
        replace (ey + bias) with ((ey - e) + (e + bias)) by lia.
        rewrite (Z.pow_add_r 2 (ey - e) (e + bias)) by (unfold e, bias; lia).
        rewrite Z.mul_assoc. fold b.
        apply Z.mul_lt_mono_pos_r; [apply pow2_pos; unfold bias; lia|exact R1]. }
      destruct (SF2Prim_finite sx m e _ Hm He Vy eq_refl Hv) as [F V].
      split; [exact F|]. cbn [value cond_Zopp] in V. destruct sx; lia.
Qed.

(** The normalised angle is never below 0 nor above 360; for a finite
    angle it is a number between the two. *)
Lemma normalizeAngle64_bounds (angleDegrees : float) :
  PrimFloat.ltb (normalizeAngle64 angleDegrees) 0 = false /\
  PrimFloat.ltb 360 (normalizeAngle64 angleDegrees) = false /\
  (finite (Prim2SF angleDegrees) = true ->
   PrimFloat.leb 0 (normalizeAngle64 angleDegrees) = true /\
   PrimFloat.leb (normalizeAngle64 angleDegrees) 360 = true).
Proof.
  unfold normalizeAngle64.
  destruct (fmod64_range angleDegrees 360 6333186975989760 (-44) eq_refl) as [Hn Hf].
  set (f := fmod64 angleDegrees 360) in *.
  destruct (finite (Prim2SF angleDegrees)) eqn:Fa.
  - destruct (Hf eq_refl) as [Ff [L U]]. clear Hn Hf.
    assert (V360 : val 360 = magnitude 6333186975989760 (-44)) by reflexivity.
    assert (N360 : notNaN 360 = true) by reflexivity.
    assert (V0 : val 0 = 0) by reflexivity.
    assert (N0 : notNaN 0 = true) by reflexivity.
    pose proof (magnitude_pos 6333186975989760 (-44) ltac:(unfold bias; lia)) as P360.
    assert (Nf : notNaN f = true).
    { unfold notNaN. destruct (Prim2SF f); try discriminate Ff; reflexivity. }
    assert (G : forall r, notNaN r = true -> 0 <= val r <= val 360 ->
                PrimFloat.ltb r 0 = false /\ PrimFloat.ltb 360 r = false /\
                (true = true -> PrimFloat.leb 0 r = true /\ PrimFloat.leb r 360 = true)).
    { intros r Nr [A B]. rewrite !ltb_val, !leb_val, Nr, N0, N360, V0. cbn [andb].
      repeat split; first [apply Z.ltb_ge | apply Z.leb_le]; lia. }
    destruct (PrimFloat.ltb f 0) eqn:Lt.
    + rewrite ltb_val, Nf, N0, V0 in Lt. cbn [andb] in Lt. apply Z.ltb_lt in Lt.
      pose proof (Prim2SF_valid f) as Vf. pose proof (Prim2SF_valid 360%float) as Vc.
      destruct (SFadd_sign (Prim2SF f) (Prim2SF 360) Vf Vc Ff eq_refl) as [Nr Sr];
        [fold (val f) (val 360%float); lia|].
      destruct (SFadd_below (Prim2SF f) (Prim2SF 360) (Prim2SF 360) Vf Vc Vc Ff eq_refl eq_refl)
        as [_ Br]; [fold (val f) (val 360%float); lia|].
      apply G.
      * unfold notNaN. rewrite add_spec. exact Nr.
      * assert (Er : val (f + 360) = value (SFadd prec emax (Prim2SF f) (Prim2SF 360)))
          by (unfold val; rewrite add_spec; reflexivity).
        rewrite Er. split; [exact Sr|exact Br].
    + rewrite ltb_val, Nf, N0, V0 in Lt. cbn [andb] in Lt. apply Z.ltb_ge in Lt.
      apply G; [exact Nf|lia].
  - specialize (Hn eq_refl). clear Hf.
    assert (Nf : notNaN f = false) by (unfold notNaN; rewrite Hn; reflexivity).
    assert (Lt : PrimFloat.ltb f 0 = false) by (rewrite ltb_val, Nf; reflexivity).
    rewrite Lt. rewrite !ltb_val, Nf. cbn [andb]. rewrite andb_false_r.
    repeat split; discriminate.
Qed.

End Binary64Arithmetic.

(** ** The trimming loop on binary64 values *)

Lemma computeOutCode64_inside (x y : float) (bl tr : B64.Point_2) :
  B64.computeOutCode x y bl tr = INSIDE <-> notBeyond (B64.mkPoint_2 x y) bl tr.
Proof.
  unfold B64.computeOutCode, notBeyond; cbn [B64.Point_2_x B64.Point_2_y].
  destruct (PrimFloat.ltb x (B64.Point_2_x bl)), (PrimFloat.ltb (B64.Point_2_x tr) x),
    (PrimFloat.ltb y (B64.Point_2_y bl)), (PrimFloat.ltb (B64.Point_2_y tr) y);
    vm_compute; split; intros H; try discriminate H;
    try (destruct H as (H1 & H2 & H3 & H4); discriminate); repeat split; reflexivity.
Qed.

Lemma clipInit64_coded (line : B64.Line_2) (bl tr : B64.Point_2) :
  coded64 (B64.clipInit line bl tr) bl tr.
Proof. split; reflexivity. Qed.

Lemma clipPoint64_onEdgeLine (s : B64.ClipState) (c : Z) (bl tr : B64.Point_2) :
  onEdgeLine (B64.mkPoint_2 (fst (B64.clipPoint s c bl tr)) (snd (B64.clipPoint s c bl tr)))
    bl tr.
Proof.
  unfold B64.clipPoint, onEdgeLine.
  destruct (truthy (Z.land c TOP)); [cbn; tauto|].
  destruct (truthy (Z.land c BOTTOM)); [cbn; tauto|].
  destruct (truthy (Z.land c RIGHT)); cbn; tauto.
Qed.

(** The endpoint that a trimming pass moves has an outcode that is not
    INSIDE. *)
Lemma outcodeOut_choice (o0 o1 : Z) :
  negb (truthy (Z.lor o0 o1)) = false ->
  let c := if truthy o0 then o0 else o1 in
  (Z.eqb c o0 = true -> o0 <> INSIDE) /\ (Z.eqb c o0 = false -> o1 <> INSIDE /\ o0 = INSIDE).
Proof.
  intros H; cbv zeta. unfold truthy in *.
  destruct (Z.eqb o0 0) eqn:E0; cbn [negb].
  - apply Z.eqb_eq in E0. subst o0. cbn [Z.lor] in H. split.
    + intros E1. apply Z.eqb_eq in E1. subst o1. discriminate H.
    + intros _. split; [|reflexivity]. intros ->. discriminate H.
  - split.
    + intros _ Hz. unfold INSIDE in Hz. subst o0. discriminate E0.
    + rewrite Z.eqb_refl. discriminate.
Qed.

(** One pass: the invariants of the loop. *)
Lemma clipBody64_continue (s s' : B64.ClipState) (bl tr : B64.Point_2) (p q : B64.Point_2) :
  coded64 s bl tr ->
  trimmed p (start64 s) bl tr -> trimmed q (end64 s) bl tr ->
  B64.clipBody s bl tr = B64.Continue s' ->
  coded64 s' bl tr /\ trimmed p (start64 s') bl tr /\ trimmed q (end64 s') bl tr.
Proof.
  intros [C0 C1] Tp Tq. unfold B64.clipBody.
  destruct (negb (truthy (Z.lor (B64.outcode0 s) (B64.outcode1 s)))) eqn:Hor; [discriminate|].
  destruct (truthy (Z.land (B64.outcode0 s) (B64.outcode1 s))); [discriminate|].
  destruct (outcodeOut_choice _ _ Hor) as [Hs He].
  set (c := if truthy (B64.outcode0 s) then B64.outcode0 s else B64.outcode1 s) in *.
  pose proof (clipPoint64_onEdgeLine s c bl tr) as Hl.
  destruct (B64.clipPoint s c bl tr) as [x y]. cbn [fst snd] in Hl.
  destruct (Z.eqb c (B64.outcode0 s)) eqn:Ec; intros H; injection H as <-.
  - split; [split; [reflexivity|exact C1]|]. split; [|exact Tq].
    right. split; [|exact Hl].
    destruct Tp as [Ep | [Hn _]]; [|exact Hn].
    unfold start64 in Ep. subst p. cbn [B64.Point_2_x B64.Point_2_y].
    rewrite <- C0. apply Hs; reflexivity.
  - split; [split; [exact C0|reflexivity]|]. split; [exact Tp|].
    right. split; [|exact Hl].
    destruct Tq as [Eq | [Hn _]]; [|exact Hn].
    unfold end64 in Eq. subst q. cbn [B64.Point_2_x B64.Point_2_y].
    rewrite <- C1. apply He; reflexivity.
Qed.

Lemma clipBody64_accept (s : B64.ClipState) (bl tr : B64.Point_2) :
  B64.clipBody s bl tr = B64.Break true ->
  B64.outcode0 s = INSIDE /\ B64.outcode1 s = INSIDE.
Proof.
  unfold B64.clipBody.
  destruct (negb (truthy (Z.lor (B64.outcode0 s) (B64.outcode1 s)))) eqn:Hor.
  - intros _. unfold truthy in Hor. rewrite negb_involutive in Hor.
    apply Z.eqb_eq in Hor. apply Z.lor_eq_0_iff in Hor. exact Hor.
  - destruct (truthy (Z.land (B64.outcode0 s) (B64.outcode1 s))); [discriminate|].
    destruct (B64.clipPoint s _ bl tr) as [x y].
    destruct (Z.eqb _ (B64.outcode0 s)); discriminate.
Qed.

Lemma clipLoop64_accept (fuel : nat) (bl tr p q : B64.Point_2) :
  forall s s',
    coded64 s bl tr ->
    trimmed p (start64 s) bl tr -> trimmed q (end64 s) bl tr ->
    B64.clipLoop fuel s bl tr = Done (true, s') ->
    notBeyond (start64 s') bl tr /\ notBeyond (end64 s') bl tr /\
    trimmed p (start64 s') bl tr /\ trimmed q (end64 s') bl tr.
Proof.
  induction fuel as [|fuel IH]; intros s s' C Tp Tq; cbn [B64.clipLoop]; [discriminate|].
  destruct (B64.clipBody s bl tr) as [accept|s1] eqn:E.
  - intros H. injection H as -> <-.
    destruct (clipBody64_accept _ _ _ E) as [A0 A1]. destruct C as [C0 C1].
    rewrite C0 in A0. rewrite C1 in A1.
    apply computeOutCode64_inside in A0. apply computeOutCode64_inside in A1.
    split; [exact A0|]. split; [exact A1|]. split; assumption.
  - destruct (clipBody64_continue _ _ _ _ p q C Tp Tq E) as (C' & Tp' & Tq').
    apply IH; assumption.
Qed.

(** What an accepting [clipLine] returns: both endpoints have the outcode
    INSIDE, and each is the endpoint given or a point moved onto an edge
    line. *)
Lemma clipLine64_accept (fuel : nat) (line line' : B64.Line_2) (bl tr : B64.Point_2) :
  B64.clipLine fuel line bl tr = Done (true, line') ->
  notBeyond (B64.Line_2_start line') bl tr /\ notBeyond (B64.Line_2_end line') bl tr /\
  trimmed (B64.Line_2_start line) (B64.Line_2_start line') bl tr /\
  trimmed (B64.Line_2_end line) (B64.Line_2_end line') bl tr.
Proof.
  unfold B64.clipLine.
  destruct (B64.clipLoop fuel (B64.clipInit line bl tr) bl tr) as [[[|] s']| |] eqn:E;
    cbn [bind]; intros H; try discriminate H.
  injection H as <-. cbn [B64.Line_2_start B64.Line_2_end].
  apply (clipLoop64_accept fuel bl tr _ _ _ _ (clipInit64_coded line bl tr)); try exact E.
  - left. destruct line as [[a b] e]. reflexivity.
  - left. destruct line as [s1 [a b]]. reflexivity.
Qed.

(** ** Loops *)

Lemma iterates_iter (next : float -> float) (n : nat) :
  forall v, Nat.iter n next (next v) = next (Nat.iter n next v).
Proof.
  intros v. rewrite <- Nat.iter_succ_r. reflexivity.
Qed.

Lemma forLoop64_done (cond : float -> bool) (next : float -> float)
    (body : float -> B64.Lines -> run B64.Lines) (fuel : nat) :
  forall v acc out,
    B64.forLoop fuel cond next body v acc = Done out <->
    exists n, (n <= fuel)%nat /\ runs cond next v n /\
              foldRun64 body (iterates next v n) acc = Done out.
Proof.
  induction fuel as [|fuel IH]; intros v acc out; cbn [B64.forLoop].
  - destruct (cond v) eqn:E; split.
    + discriminate.
    + intros (n & Hn & [Hf Hc] & _). assert (n = 0%nat) by lia. subst n.
      cbn in Hc. congruence.
    + intros H. exists 0%nat. split; [lia|]. split; [split; [constructor|exact E]|exact H].
    + intros (n & Hn & [Hf Hc] & H). assert (n = 0%nat) by lia. subst n. exact H.
  - destruct (cond v) eqn:E; split.
    + destruct (body v acc) as [acc'| |] eqn:Eb; cbn [bind]; try discriminate.
      intros H. apply IH in H. destruct H as (n & Hn & [Hf Hc] & H).
      exists (S n). split; [lia|]. split; [split|].
      * cbn [iterates]. constructor; assumption.
      * rewrite Nat.iter_succ_r. exact Hc.
      * cbn [iterates foldRun64]. rewrite Eb. exact H.
    + intros (n & Hn & [Hf Hc] & H). destruct n as [|n].
      * cbn in Hc. congruence.
      * cbn [iterates foldRun64] in H, Hf.
        destruct (body v acc) as [acc'| |] eqn:Eb; cbn [bind] in H |- *; try discriminate H.
        apply IH. exists n. split; [lia|]. split; [split|exact H].
        -- inversion Hf; assumption.
        -- rewrite Nat.iter_succ_r in Hc. exact Hc.
    + intros H. exists 0%nat. split; [lia|]. split; [split; [constructor|exact E]|exact H].
    + intros (n & Hn & [Hf Hc] & H). destruct n as [|n]; [exact H|].
      cbn [iterates] in Hf. inversion Hf. congruence.
Qed.

Lemma foldRun64_push (f : float -> B64.Line_2) (vs : list float) :
  forall acc,
    foldRun64 (fun v hatchLines => Done (B64.push_back hatchLines (f v))) vs acc
    = Done (acc ++ map f vs).
Proof.
  induction vs as [|v vs IH]; intros acc; cbn [foldRun64 map bind].
  - rewrite app_nil_r. reflexivity.
  - rewrite IH. unfold B64.push_back. rewrite <- app_assoc. reflexivity.
Qed.

(** A run is determined by the loop: two runs from the same value have the
    same length. *)
Lemma runs_unique (cond : float -> bool) (next : float -> float) :
  forall n m v, runs cond next v n -> runs cond next v m -> n = m.
Proof.
  induction n as [|n IH]; intros [|m] v [Hf Hc] [Hf' Hc']; cbn [iterates] in *.
  - reflexivity.
  - cbn in Hc. inversion Hf'. congruence.
  - cbn in Hc'. inversion Hf. congruence.
  - f_equal. rewrite Nat.iter_succ_r in Hc, Hc'. apply (IH m (next v)); split.
    + inversion Hf; assumption.
    + exact Hc.
    + inversion Hf'; assumption.
    + exact Hc'.
Qed.

(** ** The trimming loop can run forever *)

Lemma cornerLine_cycle :
  exists sA sB,
    B64.clipBody (B64.clipInit cornerLine cornerBottomLeft cornerTopRight)
      cornerBottomLeft cornerTopRight = B64.Continue sA /\
    B64.clipBody sA cornerBottomLeft cornerTopRight = B64.Continue sB /\
    B64.clipBody sB cornerBottomLeft cornerTopRight = B64.Continue sA /\
    B64.outcode1 sA = LEFT /\ B64.outcode1 sB = BOTTOM /\
    B64.outcode0 sA = INSIDE /\ B64.outcode0 sB = INSIDE.
Proof.
  eexists. eexists.
  split; [vm_compute; reflexivity|].
  split; [vm_compute; reflexivity|].
  split; [vm_compute; reflexivity|].
  repeat split; vm_compute; reflexivity.
Qed.

Lemma clipLoop64_two_cycle (sA sB : B64.ClipState) (bl tr : B64.Point_2) :
  B64.clipBody sA bl tr = B64.Continue sB ->
  B64.clipBody sB bl tr = B64.Continue sA ->
  forall fuel,
    (B64.clipLoop fuel sA bl tr = Unfinished) /\
    (B64.clipLoop fuel sB bl tr = Unfinished).
Proof.
  intros EA EB. induction fuel as [|fuel [IA IB]]; cbn [B64.clipLoop].
  - split; reflexivity.
  - rewrite EA, EB. split; assumption.
Qed.

(** C2.  There is a line and a rectangle with ordered corners for which
    the trimming loop of [clipLine] never reaches its accept or reject
    branch.  On the square (0.1, 0.1)-(1.1, 1.1) and the line from
    (0.6, 0.6) to (-0.4, -0.4), which leaves the square through its corner
    (0.1, 0.1), the end point is moved to the bottom edge, where its rounded
    abscissa is left of the left edge, then to the left edge, where its
    rounded ordinate is below the bottom edge, and so on: the two states
    alternate, and no budget of passes lets [clipLine] return. *)
Theorem clipLine64_never_returns :
  forall fuel, B64.clipLine fuel cornerLine cornerBottomLeft cornerTopRight = Unfinished.
Proof.
  destruct cornerLine_cycle as (sA & sB & E0 & EA & EB & _).
  intros [|fuel]; unfold B64.clipLine; cbn [B64.clipLoop]; [reflexivity|].
  rewrite E0.
  destruct (clipLoop64_two_cycle sA sB _ _ EA EB fuel) as [-> _]. reflexivity.
Qed.

(** ** Comparisons and NaN *)

Lemma is_nan_notNaN (c : float) : PrimFloat.is_nan c = negb (notNaN c).
Proof.
  unfold PrimFloat.is_nan, notNaN. rewrite FloatAxioms.eqb_spec. unfold SFeqb.
  destruct (isNumber (Prim2SF c)) eqn:N.
  - rewrite (SFcompare_value _ _ (Prim2SF_valid c) (Prim2SF_valid c) N N).
    rewrite Z.compare_refl. reflexivity.
  - destruct (Prim2SF c); try discriminate N. reflexivity.
Qed.

Lemma leb_notNaN (x y : float) :
  PrimFloat.leb x y = true -> notNaN x = true /\ notNaN y = true.
Proof.
  rewrite leb_val. intros H. apply andb_true_iff in H. destruct H as [H _].
  apply andb_true_iff in H. exact H.
Qed.

Lemma notBeyond_contained (p bl tr : B64.Point_2) :
  valid64 bl tr -> notBeyond p bl tr -> contained p bl tr.
Proof.
  intros [Vx Vy] N. split; [exact N|]. destruct N as (N1 & N2 & N3 & N4).
  destruct (leb_notNaN _ _ Vx) as [Nbx Ntx]. destruct (leb_notNaN _ _ Vy) as [Nby Nty].
  split; intros H; rewrite is_nan_notNaN in H; apply negb_false_iff in H;
    split; apply not_ltb_leb; assumption.
Qed.

(** ** The loops of the generation *)

Lemma iterates_Forall (Q : float -> Prop) (next : float -> float) :
  (forall u, Q u -> Q (next u)) ->
  forall n v, Q v -> Forall Q (iterates next v n).
Proof.
  intros Hq. induction n as [|n IH]; intros v Hv; cbn [iterates]; constructor.
  - exact Hv.
  - apply IH, Hq, Hv.
Qed.

Lemma Forall_and_both {A : Type} (P Q : A -> Prop) (l : list A) :
  Forall P l -> Forall Q l -> Forall (fun a => P a /\ Q a) l.
Proof.
  intros HP HQ. induction HP as [|a l Pa _ IH]; [constructor|].
  inversion HQ; subst. constructor; [split; assumption|apply IH; assumption].
Qed.

Section GenerationFacts.
Variables cos sin : float -> float.

Lemma foldRun64_keepClipped (fuel : nat) (bl tr center : B64.Point_2)
    (angleRadians diagonal : float) (P : B64.Line_2 -> Prop) :
  (forall line line', B64.clipLine fuel line bl tr = Done (true, line') -> P line') ->
  forall vs acc out,
    Forall P acc ->
    foldRun64 (B64.keepClipped cos sin fuel bl tr center angleRadians diagonal) vs acc
    = Done out ->
    Forall P out.
Proof.
  intros HP. induction vs as [|v vs IH]; intros acc out Hacc; cbn [foldRun64].
  - intros H. injection H as <-. exact Hacc.
  - unfold B64.keepClipped at 1.
    destruct (B64.clipLine fuel _ bl tr) as [[[|] line']| |] eqn:E; cbn [bind];
      try discriminate.
    + apply IH. unfold B64.push_back. apply Forall_app. split; [exact Hacc|].
      constructor; [|constructor]. exact (HP _ _ E).
    + apply IH. exact Hacc.
Qed.

(** The lines of the three loops that do not clip. *)
Lemma horizontal64_up_contained (bl tr : B64.Point_2) (step : float) (n : nat) :
  valid64 bl tr -> PrimFloat.leb step 0 = false ->
  Forall (fun y => PrimFloat.leb y (B64.Point_2_y tr) = true)
    (iterates (fun y => (y + step)%float) (B64.Point_2_y bl) n) ->
  Forall (lineContained bl tr)
    (map (horizontal64 bl tr) (iterates (fun y => (y + step)%float) (B64.Point_2_y bl) n)).
Proof.
  intros V Hs Hc. apply Forall_map.
  pose proof (iterates_Forall (fun y => PrimFloat.ltb y (B64.Point_2_y bl) = false)
                (fun y => (y + step)%float)
                (fun u Hu => add_keeps_above u step _ Hs Hu) n _
                (ltb_irreflexive _)) as Hq.
  pose proof (Forall_and_both _ _ _ Hc Hq) as H.
  eapply Forall_impl; [|exact H]. cbv beta. intros y [Hy1 Hy2].
  destruct V as [Vx Vy].
  split; apply notBeyond_contained; try (split; assumption);
    unfold notBeyond, horizontal64; cbn [B64.Line_2_start B64.Line_2_end B64.Point_2_x B64.Point_2_y];
    repeat split; auto using ltb_irreflexive, leb_not_ltb.
Qed.

Lemma horizontal64_down_contained (bl tr : B64.Point_2) (step : float) (n : nat) :
  valid64 bl tr -> PrimFloat.leb step 0 = false ->
  Forall (fun y => PrimFloat.leb (B64.Point_2_y bl) y = true)
    (iterates (fun y => (y - step)%float) (B64.Point_2_y tr) n) ->
  Forall (lineContained bl tr)
    (map (horizontal64 bl tr) (iterates (fun y => (y - step)%float) (B64.Point_2_y tr) n)).
Proof.
  intros V Hs Hc. apply Forall_map.
  pose proof (iterates_Forall (fun y => PrimFloat.ltb (B64.Point_2_y tr) y = false)
                (fun y => (y - step)%float)
                (fun u Hu => sub_keeps_below u step _ Hs Hu) n _
                (ltb_irreflexive _)) as Hq.
  pose proof (Forall_and_both _ _ _ Hc Hq) as H.
  eapply Forall_impl; [|exact H]. cbv beta. intros y [Hy1 Hy2].
  destruct V as [Vx Vy].
  split; apply notBeyond_contained; try (split; assumption);
    unfold notBeyond, horizontal64; cbn [B64.Line_2_start B64.Line_2_end B64.Point_2_x B64.Point_2_y];
    repeat split; auto using ltb_irreflexive, leb_not_ltb.
Qed.

Lemma vertical64_contained (bl tr : B64.Point_2) (step : float) (n : nat) :
  valid64 bl tr -> PrimFloat.leb step 0 = false ->
  Forall (fun x => PrimFloat.leb x (B64.Point_2_x tr) = true)
    (iterates (fun x => (x + step)%float) (B64.Point_2_x bl) n) ->
  Forall (lineContained bl tr)
    (map (vertical64 bl tr) (iterates (fun x => (x + step)%float) (B64.Point_2_x bl) n)).
Proof.
  intros V Hs Hc. apply Forall_map.
  pose proof (iterates_Forall (fun x => PrimFloat.ltb x (B64.Point_2_x bl) = false)
                (fun x => (x + step)%float)
                (fun u Hu => add_keeps_above u step _ Hs Hu) n _
                (ltb_irreflexive _)) as Hq.
  pose proof (Forall_and_both _ _ _ Hc Hq) as H.
  eapply Forall_impl; [|exact H]. cbv beta. intros x [Hx1 Hx2].
  destruct V as [Vx Vy].
  split; apply notBeyond_contained; try (split; assumption);
    unfold notBeyond, vertical64; cbn [B64.Line_2_start B64.Line_2_end B64.Point_2_x B64.Point_2_y];
    repeat split; auto using ltb_irreflexive, leb_not_ltb.
Qed.

(** A loop that pushes one line per pass. *)
Lemma forLoop64_push (cond : float -> bool) (next : float -> float)
    (f : float -> B64.Line_2) (fuel : nat) (v : float) (out : B64.Lines) :
  B64.forLoop fuel cond next
    (fun u hatchLines => Done (B64.push_back hatchLines (f u))) v [] = Done out <->
  exists n, (n <= fuel)%nat /\ runs cond next v n /\ out = map f (iterates next v n).
Proof.
  rewrite forLoop64_done. split; intros (n & Hn & Hr & H); exists n; (split; [exact Hn|]);
    (split; [exact Hr|]).
  - rewrite foldRun64_push in H. cbn [app] in H. injection H as <-. reflexivity.
  - rewrite foldRun64_push. cbn [app]. rewrite H. reflexivity.
Qed.

Lemma clipLine64_contained (fuel : nat) (line line' : B64.Line_2) (bl tr : B64.Point_2) :
  valid64 bl tr ->
  B64.clipLine fuel line bl tr = Done (true, line') -> lineContained bl tr line'.
Proof.
  intros V H. destruct (clipLine64_accept _ _ _ _ _ H) as (N0 & N1 & _).
  split; apply notBeyond_contained; assumption.
Qed.

Lemma generate64_contained (fuel : nat) (bl tr : B64.Point_2) (a step : float)
    (out : B64.Exit) :
  valid64 bl tr ->
  B64.generateHatchLines cos sin fuel bl tr a step = Done out ->
  Forall (lineContained bl tr) (B64.hatchLines out).
Proof.
  intros V. unfold B64.generateHatchLines.
  destruct (PrimFloat.leb step 0) eqn:Hs.
  { intros H. injection H as <-. constructor. }
  set (r := normalizeAngle64 a).
  match goal with |- (let* _ := ?L in _) = _ -> _ => destruct L as [ls| |] eqn:E end;
    cbn [bind]; try discriminate.
  intros H. injection H as <-. cbn [B64.hatchLines].
  destruct (_ || _) in E.
  { apply forLoop64_push in E. destruct E as (n & _ & [Hc _] & ->).
    apply horizontal64_up_contained; assumption. }
  destruct (_ || _) in E.
  { apply forLoop64_push in E. destruct E as (n & _ & [Hc _] & ->).
    apply horizontal64_down_contained; assumption. }
  destruct (_ || _) in E.
  { apply forLoop64_push in E. destruct E as (n & _ & [Hc _] & ->).
    apply vertical64_contained; assumption. }
  apply forLoop64_done in E. destruct E as (n & _ & _ & E).
  eapply foldRun64_keepClipped; [|constructor|exact E].
  intros line line'. apply clipLine64_contained. exact V.
Qed.

End GenerationFacts.

(** ** Containment *)

(** C1, as the code has it.  For every rectangle with ordered corners, a
    line that clipLine accepts and every line of a pattern that the
    generator returns has both endpoints contained in the rectangle: no
    comparison places a coordinate below the lower or above the upper bound,
    and every coordinate that is a number satisfies
    bottomLeft <= coordinate <= topRight exactly, without any tolerance. *)
Theorem hatch_lines_contained (bottomLeft topRight : B64.Point_2) :
  valid64 bottomLeft topRight ->
  (forall fuel line line',
     B64.clipLine fuel line bottomLeft topRight = Done (true, line') ->
     lineContained bottomLeft topRight line') /\
  (forall cos sin fuel angleDegrees step out,
     B64.generateHatchLines cos sin fuel bottomLeft topRight angleDegrees step = Done out ->
     Forall (lineContained bottomLeft topRight) (B64.hatchLines out)).
Proof.
  intros V. split.
  - intros fuel line line'. apply clipLine64_contained. exact V.
  - intros cos sin fuel a step out. apply generate64_contained. exact V.
Qed.

Lemma hatch_lines_contained_witness :
  valid64 exampleBottomLeft exampleTopRight /\
  (exists line',
     B64.clipLine 5 (B64.mkLine_2 (B64.mkPoint_2 (-5) 5) (B64.mkPoint_2 25 12))
       exampleBottomLeft exampleTopRight = Done (true, line') /\
     lineContained exampleBottomLeft exampleTopRight line') /\
  (exists out,
     B64.main cos45 sin45 30 45 5 = Done out /\
     List.length (B64.hatchLines out) = 4%nat /\
     Forall (lineContained exampleBottomLeft exampleTopRight) (B64.hatchLines out)).
Proof.
  assert (V : valid64 exampleBottomLeft exampleTopRight) by (split; reflexivity).
  destruct (hatch_lines_contained exampleBottomLeft exampleTopRight V) as [Hclip Hgen].
  split; [exact V|]. split.
  - eexists. split; [vm_compute; reflexivity|].
    apply (Hclip 5%nat (B64.mkLine_2 (B64.mkPoint_2 (-5) 5) (B64.mkPoint_2 25 12))).
    vm_compute. reflexivity.
  - eexists. split; [vm_compute; reflexivity|]. split; [reflexivity|].
    apply (Hgen cos45 sin45 30%nat 45%float 5%float). vm_compute. reflexivity.
Defined.

(** The claim C1 as the specification states it fails: clipLine accepts
    the line from (-1e308, -1e308) to (1e308, 1e308) on the rectangle
    (0,0)-(20,10), and both endpoints of the line it returns have the
    abscissa NaN, which satisfies neither 0 <= x nor x <= 20, whatever the
    tolerance. *)
Lemma clipLine64_accepts_nan_endpoints :
  B64.clipLine 3 overflowLine exampleBottomLeft exampleTopRight
  = Done (true, B64.mkLine_2 (B64.mkPoint_2 nan 0) (B64.mkPoint_2 nan 10)) /\
  PrimFloat.leb (B64.Point_2_x exampleBottomLeft) nan = false /\
  PrimFloat.leb nan (B64.Point_2_x exampleTopRight) = false /\
  (forall eps : float,
     PrimFloat.leb (B64.Point_2_x exampleBottomLeft - eps) nan = false /\
     PrimFloat.leb nan (B64.Point_2_x exampleTopRight + eps) = false).
Proof.
  split; [vm_compute; reflexivity|]. split; [reflexivity|]. split; [reflexivity|].
  intros eps. rewrite !leb_val.
  assert (N : notNaN nan = false) by reflexivity.
  rewrite N, andb_false_r. split; reflexivity.
Qed.

(** ** The branches that do not clip *)

Section AxisAligned.
Variables cos sin : float -> float.
Variables (fuel : nat) (bottomLeft topRight : B64.Point_2) (angleDegrees step : float).
Hypothesis step_positive : PrimFloat.leb step 0 = false.

Lemma generate64_angle_0 (n : nat) :
  ((normalizeAngle64 angleDegrees =? 0) || (normalizeAngle64 angleDegrees =? 360))%float = true ->
  runs (fun y => PrimFloat.leb y (B64.Point_2_y topRight)) (fun y => (y + step)%float)
    (B64.Point_2_y bottomLeft) n ->
  (n <= fuel)%nat ->
  B64.generateHatchLines cos sin fuel bottomLeft topRight angleDegrees step
  = Done (B64.mkExit 0 EmptyString
            (map (horizontal64 bottomLeft topRight)
               (iterates (fun y => (y + step)%float) (B64.Point_2_y bottomLeft) n))).
Proof.
  intros T0 Hr Hn. unfold B64.generateHatchLines. cbv zeta. rewrite step_positive, T0.
  match goal with |- (let* _ := ?L in _) = _ =>
    assert (E : L = Done (map (horizontal64 bottomLeft topRight)
                   (iterates (fun y => (y + step)%float) (B64.Point_2_y bottomLeft) n)))
  end.
  { apply forLoop64_push. exists n. split; [exact Hn|]. split; [exact Hr|reflexivity]. }
  rewrite E. reflexivity.
Qed.

Lemma generate64_angle_180 (n : nat) :
  normalizeAngle64 angleDegrees = 180%float ->
  runs (fun y => PrimFloat.leb (B64.Point_2_y bottomLeft) y) (fun y => (y - step)%float)
    (B64.Point_2_y topRight) n ->
  (n <= fuel)%nat ->
  B64.generateHatchLines cos sin fuel bottomLeft topRight angleDegrees step
  = Done (B64.mkExit 0 EmptyString
            (map (horizontal64 bottomLeft topRight)
               (iterates (fun y => (y - step)%float) (B64.Point_2_y topRight) n))).
Proof.
  intros Ha Hr Hn. unfold B64.generateHatchLines. cbv zeta. rewrite step_positive, Ha.
  match goal with |- (let* _ := (if ?c then _ else _) in _) = _ =>
    change c with false end. cbv iota.
  match goal with |- (let* _ := (if ?c then _ else _) in _) = _ =>
    change c with true end. cbv iota.
  match goal with |- (let* _ := ?L in _) = _ =>
    assert (E : L = Done (map (horizontal64 bottomLeft topRight)
                   (iterates (fun y => (y - step)%float) (B64.Point_2_y topRight) n)))
  end.
  { apply forLoop64_push. exists n. split; [exact Hn|]. split; [exact Hr|reflexivity]. }
  rewrite E. reflexivity.
Qed.

Lemma generate64_angle_90 (n : nat) :
  normalizeAngle64 angleDegrees = 90%float \/ normalizeAngle64 angleDegrees = 270%float ->
  runs (fun x => PrimFloat.leb x (B64.Point_2_x topRight)) (fun x => (x + step)%float)
    (B64.Point_2_x bottomLeft) n ->
  (n <= fuel)%nat ->
  B64.generateHatchLines cos sin fuel bottomLeft topRight angleDegrees step
  = Done (B64.mkExit 0 EmptyString
            (map (vertical64 bottomLeft topRight)
               (iterates (fun x => (x + step)%float) (B64.Point_2_x bottomLeft) n))).
Proof.
  intros Ha Hr Hn. unfold B64.generateHatchLines. cbv zeta. rewrite step_positive.
  destruct Ha as [Ha|Ha]; rewrite Ha.
  - match goal with |- (let* _ := (if ?c then _ else _) in _) = _ =>
      change c with false end. cbv iota.
    match goal with |- (let* _ := (if ?c then _ else _) in _) = _ =>
      change c with false end. cbv iota.
    match goal with |- (let* _ := (if ?c then _ else _) in _) = _ =>
      change c with true end. cbv iota.
    match goal with |- (let* _ := ?L in _) = _ =>
      assert (E : L = Done (map (vertical64 bottomLeft topRight)
                     (iterates (fun x => (x + step)%float) (B64.Point_2_x bottomLeft) n)))
    end.
    { apply forLoop64_push. exists n. split; [exact Hn|]. split; [exact Hr|reflexivity]. }
    rewrite E. reflexivity.
  - match goal with |- (let* _ := (if ?c then _ else _) in _) = _ =>
      change c with false end. cbv iota.
    match goal with |- (let* _ := (if ?c then _ else _) in _) = _ =>
      change c with false end. cbv iota.
    match goal with |- (let* _ := (if ?c then _ else _) in _) = _ =>
      change c with true end. cbv iota.
    match goal with |- (let* _ := ?L in _) = _ =>
      assert (E : L = Done (map (vertical64 bottomLeft topRight)
                     (iterates (fun x => (x + step)%float) (B64.Point_2_x bottomLeft) n)))
    end.
    { apply forLoop64_push. exists n. split; [exact Hn|]. split; [exact Hr|reflexivity]. }
    rewrite E. reflexivity.
Qed.

End AxisAligned.

Lemma horizontal64_injective (bl tr : B64.Point_2) (ys ys' : list float) :
  map (horizontal64 bl tr) ys = map (horizontal64 bl tr) ys' <-> ys = ys'.
Proof.
  split; [|intros ->; reflexivity].
  revert ys'. induction ys as [|y ys IH]; intros [|y' ys'] H; try discriminate H.
  - reflexivity.
  - cbn [map] in H. injection H as H1 _ H2. f_equal; [exact H1|apply IH; exact H2].
Qed.

(** C6.  For a normalised angle of 0 or 360, as the code tests it, and a
    step that is not <= 0: when the guard y <= topRight.y fails after n
    values of y, every budget of at least n passes gives exactly the
    unclipped lines (bottomLeft.x, y)-(topRight.x, y) at the n values
    y = bottomLeft.y, bottomLeft.y + step, (bottomLeft.y + step) + step, ...
    in that order.  For the rectangle (0,0)-(20,10), angle 0 and step 1
    these are the 11 lines (0,y)-(20,y), y = 0, 1, ..., 10. *)
Theorem angle_0_horizontal_lines :
  (forall cos sin fuel n bottomLeft topRight angleDegrees step,
     PrimFloat.leb step 0 = false ->
     ((normalizeAngle64 angleDegrees =? 0)
      || (normalizeAngle64 angleDegrees =? 360))%float = true ->
     runs (fun y => PrimFloat.leb y (B64.Point_2_y topRight)) (fun y => (y + step)%float)
       (B64.Point_2_y bottomLeft) n ->
     (n <= fuel)%nat ->
     B64.generateHatchLines cos sin fuel bottomLeft topRight angleDegrees step
     = Done (B64.mkExit 0 EmptyString
               (map (horizontal64 bottomLeft topRight)
                  (iterates (fun y => (y + step)%float) (B64.Point_2_y bottomLeft) n)))) /\
  (forall cos sin fuel,
     (11 <= fuel)%nat ->
     B64.main cos sin fuel 0 1
     = Done (B64.mkExit 0 EmptyString
               (map (fun y => B64.mkLine_2 (B64.mkPoint_2 0 y) (B64.mkPoint_2 20 y))
                  [0; 1; 2; 3; 4; 5; 6; 7; 8; 9; 10]%float))).
Proof.
  split.
  - intros cos sin fuel n bl tr a step Hs T0 Hr Hn.
    apply generate64_angle_0; assumption.
  - intros cos sin fuel Hf. unfold B64.main.
    rewrite (generate64_angle_0 cos sin fuel _ _ 0%float 1%float eq_refl 11 eq_refl);
      [reflexivity| |exact Hf].
    split; [|reflexivity].
    cbn [iterates B64.Point_2_y]. repeat (apply Forall_cons; [reflexivity|]). apply Forall_nil.
Qed.

Lemma angle_0_horizontal_lines_witness :
  B64.generateHatchLines cos45 sin45 5 exampleBottomLeft exampleTopRight
    (-0x1.79ca10c924223p-67) 0x1.4p+1
  = Done (B64.mkExit 0 EmptyString
            (map (horizontal64 exampleBottomLeft exampleTopRight)
               [0; 0x1.4p+1; 5; 0x1.ep+2; 10]%float)) /\
  B64.generateHatchLines cos45 sin45 101 exampleBottomLeft exampleTopRight
    0 0x1.999999999999ap-4
  = Done (B64.mkExit 0 EmptyString
            (map (horizontal64 exampleBottomLeft exampleTopRight)
               (iterates (fun y => (y + 0x1.999999999999ap-4)%float) 0 101))) /\
  nth_error (iterates (fun y => (y + 0x1.999999999999ap-4)%float) 0%float 101) 100
  = Some 0x1.3fffffffffff5p+3%float.
Proof.
  split; [|split; [|reflexivity]].
  - apply (proj1 angle_0_horizontal_lines cos45 sin45 5%nat 5%nat
             exampleBottomLeft exampleTopRight (-0x1.79ca10c924223p-67)%float 0x1.4p+1%float).
    + reflexivity.
    + reflexivity.
    + split; [|reflexivity].
      cbn [iterates B64.Point_2_y exampleBottomLeft].
      repeat (apply Forall_cons; [reflexivity|]). apply Forall_nil.
    + apply le_n.
  - apply (proj1 angle_0_horizontal_lines cos45 sin45 101%nat 101%nat
             exampleBottomLeft exampleTopRight 0%float 0x1.999999999999ap-4%float).
    + reflexivity.
    + reflexivity.
    + split; [|vm_compute; reflexivity].
      apply Forall_forall.
      apply (forallb_forall (fun y => PrimFloat.leb y (B64.Point_2_y exampleTopRight))).
      vm_compute. reflexivity.
    + apply le_n.
Defined.

(** C4, as the code has it.  For a step that is not <= 0, an angle that
    the code takes for 0 (or 360) and an angle normalised to 180, when both
    loops end: the first output is the full-width horizontal lines at
    y = bottomLeft.y, bottomLeft.y + step, ... (while y <= topRight.y), the
    second the full-width horizontal lines at y = topRight.y,
    topRight.y - step, ... (while y >= bottomLeft.y); the second is the
    first reversed exactly when the heights of the second loop are the
    heights of the first loop in reverse order. *)
Theorem angle_180_against_angle_0 :
  forall cos sin fuel n0 n180 bottomLeft topRight angle0 angle180 step,
    PrimFloat.leb step 0 = false ->
    ((normalizeAngle64 angle0 =? 0) || (normalizeAngle64 angle0 =? 360))%float = true ->
    normalizeAngle64 angle180 = 180%float ->
    runs (fun y => PrimFloat.leb y (B64.Point_2_y topRight)) (fun y => (y + step)%float)
      (B64.Point_2_y bottomLeft) n0 ->
    runs (fun y => PrimFloat.leb (B64.Point_2_y bottomLeft) y) (fun y => (y - step)%float)
      (B64.Point_2_y topRight) n180 ->
    (n0 <= fuel)%nat -> (n180 <= fuel)%nat ->
    let heights0 := iterates (fun y => (y + step)%float) (B64.Point_2_y bottomLeft) n0 in
    let heights180 := iterates (fun y => (y - step)%float) (B64.Point_2_y topRight) n180 in
    B64.generateHatchLines cos sin fuel bottomLeft topRight angle0 step
    = Done (B64.mkExit 0 EmptyString (map (horizontal64 bottomLeft topRight) heights0)) /\
    B64.generateHatchLines cos sin fuel bottomLeft topRight angle180 step
    = Done (B64.mkExit 0 EmptyString (map (horizontal64 bottomLeft topRight) heights180)) /\
    (map (horizontal64 bottomLeft topRight) heights180
     = rev (map (horizontal64 bottomLeft topRight) heights0)
     <-> heights180 = rev heights0).
Proof.
  intros cos sin fuel n0 n180 bl tr a0 a180 step Hs T0 T180 R0 R180 F0 F180 h0 h180.
  split; [apply generate64_angle_0; assumption|].
  split; [apply generate64_angle_180; assumption|].
  rewrite <- map_rev. apply horizontal64_injective.
Qed.

Lemma angle_180_against_angle_0_witness :
  B64.main cos45 sin45 11 0 1
  = Done (B64.mkExit 0 EmptyString
            (map (horizontal64 exampleBottomLeft exampleTopRight)
               [0; 1; 2; 3; 4; 5; 6; 7; 8; 9; 10]%float)) /\
  B64.main cos45 sin45 11 180 1
  = Done (B64.mkExit 0 EmptyString
            (map (horizontal64 exampleBottomLeft exampleTopRight)
               [10; 9; 8; 7; 6; 5; 4; 3; 2; 1; 0]%float)) /\
  (map (horizontal64 exampleBottomLeft exampleTopRight)
     [10; 9; 8; 7; 6; 5; 4; 3; 2; 1; 0]%float
   = rev (map (horizontal64 exampleBottomLeft exampleTopRight)
            [0; 1; 2; 3; 4; 5; 6; 7; 8; 9; 10]%float)
   <-> [10; 9; 8; 7; 6; 5; 4; 3; 2; 1; 0]%float
       = rev [0; 1; 2; 3; 4; 5; 6; 7; 8; 9; 10]%float).
Proof.
  apply (angle_180_against_angle_0 cos45 sin45 11%nat 11%nat 11%nat
           exampleBottomLeft exampleTopRight 0%float 180%float 1%float).
  - reflexivity.
  - reflexivity.
  - reflexivity.
  - split; [|reflexivity].
    cbn [iterates B64.Point_2_y exampleBottomLeft].
    repeat (apply Forall_cons; [reflexivity|]). apply Forall_nil.
  - split; [|reflexivity].
    cbn [iterates B64.Point_2_y exampleTopRight].
    repeat (apply Forall_cons; [reflexivity|]). apply Forall_nil.
  - apply le_n.
  - apply le_n.
Defined.

(** C5, as the code has it.  The generation depends on the angle through
    its normalised value only: two angles with the same normalised value
    give the same result, for every rectangle, step and budget.  So the
    pattern of the angle 45 is the pattern of 405 and of -315, which are
    normalised to 45; the angle 225 is normalised to itself. *)
Theorem angle_45_equivalents :
  (forall cos sin fuel bottomLeft topRight step angle angle',
     normalizeAngle64 angle = normalizeAngle64 angle' ->
     B64.generateHatchLines cos sin fuel bottomLeft topRight angle step
     = B64.generateHatchLines cos sin fuel bottomLeft topRight angle' step) /\
  (forall cos sin fuel bottomLeft topRight step,
     B64.generateHatchLines cos sin fuel bottomLeft topRight 405 step
     = B64.generateHatchLines cos sin fuel bottomLeft topRight 45 step /\
     B64.generateHatchLines cos sin fuel bottomLeft topRight (-315) step
     = B64.generateHatchLines cos sin fuel bottomLeft topRight 45 step) /\
  normalizeAngle64 45 = 45%float /\
  normalizeAngle64 405 = 45%float /\
  normalizeAngle64 (-315) = 45%float /\
  normalizeAngle64 225 = 225%float.
Proof.
  assert (G : forall cos sin fuel bottomLeft topRight step angle angle',
             normalizeAngle64 angle = normalizeAngle64 angle' ->
             B64.generateHatchLines cos sin fuel bottomLeft topRight angle step
             = B64.generateHatchLines cos sin fuel bottomLeft topRight angle' step).
  { intros cos sin fuel bl tr step a a' H. unfold B64.generateHatchLines. cbv zeta.
    rewrite H. reflexivity. }
  split; [exact G|]. split; [|repeat split; reflexivity].
  intros cos sin fuel bl tr step. split; apply G; reflexivity.
Qed.

Lemma angle_45_equivalents_witness :
  B64.generateHatchLines cos45 sin45 30 exampleBottomLeft exampleTopRight 765 5
  = B64.generateHatchLines cos45 sin45 30 exampleBottomLeft exampleTopRight 45 5.
Proof.
  apply (proj1 angle_45_equivalents cos45 sin45 30%nat exampleBottomLeft exampleTopRight
           5%float 765%float 45%float).
  reflexivity.
Defined.

(** C9, as the code has it.  For every double, the angle that the
    normalisation leaves is never below 0 and never above 360.  For a finite
    angle it is a number with 0 <= result <= 360; for an infinite angle and
    for NaN it is NaN. *)
Theorem normalizeAngle64_in_range (angleDegrees : float) :
  PrimFloat.ltb (normalizeAngle64 angleDegrees) 0 = false /\
  PrimFloat.ltb 360 (normalizeAngle64 angleDegrees) = false /\
  (finite (Prim2SF angleDegrees) = true ->
   PrimFloat.leb 0 (normalizeAngle64 angleDegrees) = true /\
   PrimFloat.leb (normalizeAngle64 angleDegrees) 360 = true) /\
  (finite (Prim2SF angleDegrees) = false ->
   PrimFloat.is_nan (normalizeAngle64 angleDegrees) = true).
Proof.
  destruct (normalizeAngle64_bounds angleDegrees) as (L & U & B).
  split; [exact L|]. split; [exact U|]. split; [exact B|].
  intros Hf. unfold normalizeAngle64.
  destruct (fmod64_range angleDegrees 360 6333186975989760 (-44) eq_refl) as [Hn _].
  specialize (Hn Hf).
  assert (E : fmod64 angleDegrees 360 = nan).
  { apply Prim2SF_inj. rewrite Hn. reflexivity. }
  rewrite E. reflexivity.
Qed.

Lemma normalizeAngle64_in_range_witness :
  (PrimFloat.leb 0 (normalizeAngle64 (-725)) = true /\
   PrimFloat.leb (normalizeAngle64 (-725)) 360 = true) /\
  PrimFloat.is_nan (normalizeAngle64 infinity) = true.
Proof.
  split.
  - apply (proj1 (proj2 (proj2 (normalizeAngle64_in_range (-725))))). reflexivity.
  - apply (proj2 (proj2 (proj2 (normalizeAngle64_in_range infinity)))). reflexivity.
Defined.

(** X5.  What an accepted line has become: an endpoint whose outcode was
    INSIDE is returned as it was; every other endpoint has been replaced by
    a point that has a coordinate of an edge of the rectangle and that no
    comparison places outside the rectangle. *)
Theorem clipLine64_moves_outside_endpoints
    (fuel : nat) (line line' : B64.Line_2) (bottomLeft topRight : B64.Point_2) :
  B64.clipLine fuel line bottomLeft topRight = Done (true, line') ->
  let code p := B64.computeOutCode (B64.Point_2_x p) (B64.Point_2_y p) bottomLeft topRight in
  (code (B64.Line_2_start line) = INSIDE -> B64.Line_2_start line' = B64.Line_2_start line) /\
  (code (B64.Line_2_end line) = INSIDE -> B64.Line_2_end line' = B64.Line_2_end line) /\
  (code (B64.Line_2_start line) <> INSIDE ->
   onEdgeLine (B64.Line_2_start line') bottomLeft topRight /\
   notBeyond (B64.Line_2_start line') bottomLeft topRight) /\
  (code (B64.Line_2_end line) <> INSIDE ->
   onEdgeLine (B64.Line_2_end line') bottomLeft topRight /\
   notBeyond (B64.Line_2_end line') bottomLeft topRight).
Proof.
  intros H code. destruct (clipLine64_accept _ _ _ _ _ H) as (N0 & N1 & T0 & T1).
  assert (K : forall p q, trimmed p q bottomLeft topRight -> notBeyond q bottomLeft topRight ->
              (code p = INSIDE -> q = p) /\
              (code p <> INSIDE -> onEdgeLine q bottomLeft topRight /\
                                   notBeyond q bottomLeft topRight)).
  { intros p q [->|[Hc He]] Nq; split.
    - reflexivity.
    - intros Hc. exfalso. apply Hc. unfold code. destruct p as [px py].
      apply computeOutCode64_inside. exact Nq.
    - intros Hi. contradiction.
    - intros _. split; assumption. }
  destruct (K _ _ T0 N0) as [A0 B0]. destruct (K _ _ T1 N1) as [A1 B1].
  repeat split; auto; try (apply B0; assumption); try (apply B1; assumption).
Qed.

Lemma clipLine64_moves_outside_endpoints_witness :
  exists line',
    B64.clipLine 5 (B64.mkLine_2 (B64.mkPoint_2 5 5) (B64.mkPoint_2 25 12))
      exampleBottomLeft exampleTopRight = Done (true, line') /\
    B64.Line_2_start line' = B64.mkPoint_2 5 5 /\
    onEdgeLine (B64.Line_2_end line') exampleBottomLeft exampleTopRight /\
    notBeyond (B64.Line_2_end line') exampleBottomLeft exampleTopRight.
Proof.
  eexists. split; [vm_compute; reflexivity|].
  match goal with |- B64.Line_2_start ?l = _ /\ _ =>
    destruct (clipLine64_moves_outside_endpoints 5
                (B64.mkLine_2 (B64.mkPoint_2 5 5) (B64.mkPoint_2 25 12)) l
                exampleBottomLeft exampleTopRight) as (A & _ & _ & D)
  end.
  - vm_compute. reflexivity.
  - split; [apply A; reflexivity|]. apply D. vm_compute. discriminate.
Defined.

(** X16.  For a step that is not <= 0 and a normalised angle of 90 or 270:
    when the guard x <= topRight.x fails after n values of x, every budget
    of at least n passes gives exactly the unclipped vertical lines
    (x, bottomLeft.y)-(x, topRight.y) at the n values x = bottomLeft.x,
    bottomLeft.x + step, (bottomLeft.x + step) + step, ... from left to
    right.  The angles -90 and 450 are normalised to 270 and 90. *)
Theorem angle_90_vertical_lines :
  (forall cos sin fuel n bottomLeft topRight angleDegrees step,
     PrimFloat.leb step 0 = false ->
     normalizeAngle64 angleDegrees = 90%float \/ normalizeAngle64 angleDegrees = 270%float ->
     runs (fun x => PrimFloat.leb x (B64.Point_2_x topRight)) (fun x => (x + step)%float)
       (B64.Point_2_x bottomLeft) n ->
     (n <= fuel)%nat ->
     B64.generateHatchLines cos sin fuel bottomLeft topRight angleDegrees step
     = Done (B64.mkExit 0 EmptyString
               (map (vertical64 bottomLeft topRight)
                  (iterates (fun x => (x + step)%float) (B64.Point_2_x bottomLeft) n)))) /\
  normalizeAngle64 (-90) = 270%float /\
  normalizeAngle64 450 = 90%float.
Proof.
  split; [|split; reflexivity].
  intros cos sin fuel n bl tr a step Hs Ha Hr Hn.
  apply generate64_angle_90; assumption.
Qed.

Lemma angle_90_vertical_lines_witness :
  B64.main cos45 sin45 4 (-90) 6
  = Done (B64.mkExit 0 EmptyString
            (map (vertical64 exampleBottomLeft exampleTopRight) [0; 6; 12; 18]%float)).
Proof.
  apply (proj1 angle_90_vertical_lines cos45 sin45 4%nat 4%nat
           exampleBottomLeft exampleTopRight (-90)%float 6%float).
  - reflexivity.
  - right. reflexivity.
  - split; [|reflexivity].
    cbn [iterates B64.Point_2_x exampleBottomLeft].
    repeat (apply Forall_cons; [reflexivity|]). apply Forall_nil.
  - apply le_n.
Defined.

(** ** The general branch *)

Section GeneralBranch.
Variables cos sin : float -> float.
Variables (fuel : nat) (bottomLeft topRight center : B64.Point_2).
Variables angleRadians diagonal : float.

Lemma foldRun64_keepClipped_flat (offsets : list float) :
  Forall (fun offset =>
            exists r, B64.clipLine fuel
                        (B64.candidate cos sin center angleRadians diagonal offset)
                        bottomLeft topRight = Done r) offsets ->
  forall acc,
    foldRun64 (B64.keepClipped cos sin fuel bottomLeft topRight center angleRadians diagonal)
      offsets acc
    = Done (acc ++ flat_map
                     (fun offset =>
                        clipped64 fuel bottomLeft topRight
                          (B64.candidate cos sin center angleRadians diagonal offset))
                     offsets).
Proof.
  induction 1 as [|offset offsets [[kept line'] Hr] _ IH]; intros acc;
    cbn [foldRun64 flat_map].
  - rewrite app_nil_r. reflexivity.
  - unfold B64.keepClipped at 1. unfold clipped64 at 1. rewrite Hr. cbn [bind].
    destruct kept; cbn [bind]; rewrite IH.
    + unfold B64.push_back. rewrite <- app_assoc. reflexivity.
    + reflexivity.
Qed.

End GeneralBranch.

(** X10.  On the program's doubles, for a step that is not <= 0 and a
    normalised angle that passes none of the tests of the first three
    branches: when the guard offset <= diagonal / 2 fails after n values of
    the offset and clipLine returns for each of their candidates, every
    such budget gives, in the order of the offsets -diagonal / 2,
    -diagonal / 2 + step, ..., what clipLine keeps of each candidate: the
    clipped line when it accepts, nothing when it rejects; exit code 0, no
    error text. *)
Theorem general_angle_pattern :
  forall cos sin fuel n bottomLeft topRight angleDegrees step,
    PrimFloat.leb step 0 = false ->
    ((normalizeAngle64 angleDegrees =? 0)
     || (normalizeAngle64 angleDegrees =? 360))%float = false ->
    ((normalizeAngle64 angleDegrees =? 180)
     || (normalizeAngle64 angleDegrees =? -180))%float = false ->
    ((normalizeAngle64 angleDegrees =? 90) || (normalizeAngle64 angleDegrees =? -90)
     || (normalizeAngle64 angleDegrees =? 270)
     || (normalizeAngle64 angleDegrees =? -270))%float = false ->
    let diagonal := diagonal64 bottomLeft topRight in
    let candidateAt :=
      B64.candidate cos sin (center64 bottomLeft topRight)
        (B64.degreesToRadians (normalizeAngle64 angleDegrees)) diagonal in
    let offsets := iterates (fun offset => (offset + step)%float) (- diagonal / 2)%float n in
    runs (fun offset => PrimFloat.leb offset (diagonal / 2)%float)
      (fun offset => (offset + step)%float) (- diagonal / 2)%float n ->
    (n <= fuel)%nat ->
    Forall (fun offset =>
              exists r, B64.clipLine fuel (candidateAt offset) bottomLeft topRight = Done r)
      offsets ->
    B64.generateHatchLines cos sin fuel bottomLeft topRight angleDegrees step
    = Done (B64.mkExit 0 EmptyString
              (flat_map (fun offset => clipped64 fuel bottomLeft topRight (candidateAt offset))
                 offsets)).
Proof.
  intros cos sin fuel n bl tr a step Hs T0 T180 T90 diagonal candidateAt offsets Hr Hn Hc.
  unfold B64.generateHatchLines. cbv zeta. rewrite Hs, T0, T180, T90.
  fold (diagonal64 bl tr). fold diagonal. fold (center64 bl tr).
  match goal with |- (let* _ := ?L in _) = _ =>
    assert (E : L = Done (flat_map (fun offset => clipped64 fuel bl tr (candidateAt offset))
                            offsets))
  end.
  { apply forLoop64_done. exists n. split; [exact Hn|]. split; [exact Hr|].
    fold offsets. rewrite foldRun64_keepClipped_flat by exact Hc. reflexivity. }
  rewrite E. reflexivity.
Qed.

Lemma general_angle_pattern_witness :
  exists kept,
    B64.main cos45 sin45 5 45 5 = Done (B64.mkExit 0 EmptyString kept) /\
    List.length kept = 4%nat /\
    kept = flat_map
             (fun offset =>
                clipped64 5 exampleBottomLeft exampleTopRight
                  (B64.candidate cos45 sin45 (center64 exampleBottomLeft exampleTopRight)
                     (B64.degreesToRadians 45) (diagonal64 exampleBottomLeft exampleTopRight)
                     offset))
             (iterates (fun offset => (offset + 5)%float)
                (- diagonal64 exampleBottomLeft exampleTopRight / 2)%float 5).
Proof.
  eexists. split; [|split; [|reflexivity]].
  - apply (general_angle_pattern cos45 sin45 5%nat 5%nat exampleBottomLeft exampleTopRight
             45%float 5%float).
    + reflexivity.
    + reflexivity.
    + reflexivity.
    + reflexivity.
    + split; [|reflexivity].
      repeat (apply Forall_cons; [reflexivity|]). apply Forall_nil.
    + apply le_n.
    + repeat (apply Forall_cons; [eexists; vm_compute; reflexivity|]). apply Forall_nil.
  - vm_compute. reflexivity.
Defined.

(** X15.  On the program's doubles the check of the step decides the
    exit.  For a step <= 0 the generation returns at once, for every budget,
    with exit code 1, the error text and no line.  For every other step a
    generation that returns has exit code 0 and no error text; NaN is such
    a step: the check does not reject it. *)
Theorem generation_exit :
  forall cos sin fuel bottomLeft topRight angleDegrees step,
    (PrimFloat.leb step 0 = true ->
     B64.generateHatchLines cos sin fuel bottomLeft topRight angleDegrees step
     = Done (B64.mkExit 1 stepError [])) /\
    (PrimFloat.leb step 0 = false ->
     forall out,
       B64.generateHatchLines cos sin fuel bottomLeft topRight angleDegrees step = Done out ->
       B64.exitCode out = 0%Z /\ B64.errorText out = EmptyString) /\
    (PrimFloat.is_nan step = true -> PrimFloat.leb step 0 = false).
Proof.
  intros cos sin fuel bl tr a step. split; [|split].
  - intros Hs. unfold B64.generateHatchLines. rewrite Hs. reflexivity.
  - intros Hs out. unfold B64.generateHatchLines. rewrite Hs. cbv zeta.
    match goal with |- (let* _ := ?L in _) = _ -> _ => destruct L end;
      cbn [bind]; intros H; try discriminate H.
    injection H as <-. split; reflexivity.
  - intros Hn. rewrite is_nan_notNaN in Hn. apply negb_true_iff in Hn.
    rewrite leb_val, Hn. reflexivity.
Qed.

Lemma generation_exit_witness :
  B64.main cos45 sin45 0 45 (-1) = Done (B64.mkExit 1 stepError []) /\
  B64.main cos45 sin45 0 45 (-0) = Done (B64.mkExit 1 stepError []) /\
  (exists out,
     B64.main cos45 sin45 1 0 nan = Done out /\
     B64.exitCode out = 0%Z /\ B64.errorText out = EmptyString /\
     B64.hatchLines out = [horizontal64 exampleBottomLeft exampleTopRight 0]) /\
  PrimFloat.leb nan 0 = false.
Proof.
  split; [|split; [|split]].
  - apply (proj1 (generation_exit cos45 sin45 0%nat exampleBottomLeft exampleTopRight
                    45%float (-1)%float)). reflexivity.
  - apply (proj1 (generation_exit cos45 sin45 0%nat exampleBottomLeft exampleTopRight
                    45%float (-0)%float)). reflexivity.
  - eexists. split; [vm_compute; reflexivity|].
    destruct (proj1 (proj2 (generation_exit cos45 sin45 1%nat exampleBottomLeft
                              exampleTopRight 0%float nan)) eq_refl
                (B64.mkExit 0 EmptyString
                   [horizontal64 exampleBottomLeft exampleTopRight 0])) as [E1 E2].
    + vm_compute. reflexivity.
    + split; [exact E1|]. split; [exact E2|reflexivity].
  - apply (proj2 (proj2 (generation_exit cos45 sin45 0%nat exampleBottomLeft exampleTopRight
                           0%float nan))). reflexivity.
Defined.
